(** * Nova Canvas MCP server: storage, model invocation and tool handlers

    A shallow embedding of the TypeScript sources under [npx/src]:
    - [utils/image.ts]   ([getImage], [saveImage], the module-level
      [imageCache] and [imagesDir]);
    - [utils/bedrock.ts] ([generateImage]);
    - the seven tool handlers under [tools/].

    Asynchronous functions are modelled in a state-and-exception monad over
    an explicit [World] (file system, image cache, console, spawned
    commands, payloads sent to the remote model).  Everything the program
    obtains from outside (Node's [fs] faults, [crypto.randomUUID], the
    Bedrock client, [JSON.parse], base64 coding, [process.cwd()],
    [process.platform]) is a field of the record [Env]. *)

From Stdlib Require Import QArith Ascii.
From stdpp Require Import gmap strings list fin_maps.

Open Scope string_scope.

(** ** Node's [path] module (POSIX implementation) *)

Module path.

Definition slash : ascii := "/"%char.
Definition dot : ascii := "."%char.

Definition is_slash (c : ascii) : bool := bool_decide (c = slash).

Definition chars (s : string) : list ascii := String.list_ascii_of_string s.
Definition str (l : list ascii) : string := String.string_of_list_ascii l.

(** The backwards loop of [posix.dirname] over the indices
    [length - 1 .. 1]: [l] holds the characters still to visit, the one
    with the highest index first, so the head of [l] has index
    [length l]. *)
Fixpoint dirname_scan (l : list ascii) (matchedSlash : bool) : option nat :=
  match l with
  | [] => None
  | c :: l' =>
      if is_slash c
      then (if matchedSlash then dirname_scan l' matchedSlash
            else Some (length l))
      else dirname_scan l' false
  end.

Definition dirname (p : string) : string :=
  match chars p with
  | [] => "."
  | c0 :: rest =>
      let hasRoot := is_slash c0 in
      match dirname_scan (rev rest) true with
      | None => if hasRoot then "/" else "."
      | Some e =>
          if hasRoot && (e =? 1)%nat then "//"
          else str (take e (c0 :: rest))
      end
  end.

(** Segments between separators, as [normalizeString] visits them. *)
Fixpoint segments_aux (l cur : list ascii) : list (list ascii) :=
  match l with
  | [] => [rev cur]
  | c :: l' =>
      if is_slash c then rev cur :: segments_aux l' []
      else segments_aux l' (c :: cur)
  end.

Definition segments (l : list ascii) : list (list ascii) := segments_aux l [].

(** [normalizeString]: [res] is the stack of kept segments, last one
    first. *)
Fixpoint normalize_segments (allowAboveRoot : bool)
    (segs res : list (list ascii)) : list (list ascii) :=
  match segs with
  | [] => rev res
  | s :: segs' =>
      if bool_decide (s = []) || bool_decide (s = [dot]) then
        normalize_segments allowAboveRoot segs' res
      else if bool_decide (s = [dot; dot]) then
        match res with
        | top :: res' =>
            if bool_decide (top = [dot; dot])
            then normalize_segments allowAboveRoot segs'
                   (if allowAboveRoot then s :: res else res)
            else normalize_segments allowAboveRoot segs' res'
        | [] =>
            normalize_segments allowAboveRoot segs'
              (if allowAboveRoot then [s] else [])
        end
      else normalize_segments allowAboveRoot segs' (s :: res)
  end.

Fixpoint intercalate (segs : list (list ascii)) : list ascii :=
  match segs with
  | [] => []
  | [s] => s
  | s :: segs' => (s ++ slash :: intercalate segs')%list
  end.

Definition normalize (p : string) : string :=
  match chars p with
  | [] => "."
  | c0 :: _ =>
      let isAbsolute := is_slash c0 in
      let trailingSeparator :=
        match last (chars p) with Some c => is_slash c | None => false end in
      let body :=
        intercalate
          (normalize_segments (negb isAbsolute) (segments (chars p)) []) in
      match body with
      | [] =>
          if isAbsolute then "/"
          else if trailingSeparator then "./" else "."
      | _ =>
          let body' :=
            if trailingSeparator then (body ++ [slash])%list else body in
          str (if isAbsolute then slash :: body' else body')
      end
  end.

(** [path.join(a, b)] for the two-argument calls of the program. *)
Definition join (a b : string) : string :=
  match chars a, chars b with
  | [], [] => "."
  | [], _ => normalize b
  | _, [] => normalize a
  | _, _ => normalize (a +:+ "/" +:+ b)
  end.

End path.

Close Scope Q_scope.

(** ** JavaScript values *)

(** The value of a thrown [Error]: the handlers only read [message]. *)
Record Error := mkError { name : string; message : string }.

Definition new_Error (msg : string) : Error := mkError "Error" msg.
Definition new_TypeError (msg : string) : Error := mkError "TypeError" msg.

(** What [JSON.parse] returns and what [JSON.stringify] accepts.  A number
    carries the value of the parsed double; the fields of an object are in
    source order, so a later duplicate key hides an earlier one. *)
#[local] Unset Elimination Schemes.
Inductive json : Type :=
  | JNull
  | JBool (b : bool)
  | JNum (q : Q)
  | JStr (s : string)
  | JArr (elements : list json)
  | JObj (fields : list (string * json)).
#[local] Set Elimination Schemes.

(** A JavaScript value read off a [json]: [None] is [undefined]. *)
Abbreviation jsval := (option json).

Abbreviation Buffer := (list Byte.byte).

(** [!!v] as the conditions of the program use it. *)
Definition truthy_json (j : json) : bool :=
  match j with
  | JNull => false
  | JBool b => b
  | JNum q => negb (Qeq_bool q 0)
  | JStr s => negb (bool_decide (s = ""))
  | JArr _ | JObj _ => true
  end.

Definition truthy (v : jsval) : bool :=
  match v with
  | None => false
  | Some j => truthy_json j
  end.

(** Own property of a parsed object: the last field with that key. *)
Fixpoint own_property (fields : list (string * json)) (key : string) : jsval :=
  match fields with
  | [] => None
  | (k, v) :: rest =>
      match own_property rest key with
      | Some v' => Some v'
      | None => if bool_decide (k = key) then Some v else None
      end
  end.

(** [v?.[0]]: [undefined] on [undefined] and [null], the first element of an
    array, the first character of a string, the property ["0"] of an
    object. *)
Definition index0 (v : jsval) : jsval :=
  match v with
  | None | Some JNull => None
  | Some (JArr l) => head l
  | Some (JStr s) =>
      match s with
      | EmptyString => None
      | String c _ => Some (JStr (String c EmptyString))
      end
  | Some (JObj fields) => own_property fields "0"
  | Some (JBool _) | Some (JNum _) => None
  end.

(** ** Results of the tool handlers and of [saveImage] *)

(** [ImageResponse] of [types.ts]. *)
Record ImageResponse := {
  imageId : string;
  imagePath : string;
  url : option string
}.

(** [CallToolResult] restricted to the text content the handlers build. *)
Record TextContent := { type : string; text : string }.
Record CallToolResult := { content : list TextContent }.

Definition text_result (t : string) : CallToolResult :=
  {| content := [ {| type := "text"; text := t |} ] |}.

(** ** The world and its environment *)

Inductive Outcome (A : Type) : Type :=
  | Ok (a : A)
  | Throw (e : Error).
Arguments Ok {A} a.
Arguments Throw {A} e.

(** Paths are compared as written: two spellings of one file are two
    keys. *)
Record World := mkWorld {
  files : gmap string Buffer;       (* regular files, by path *)
  dirs : gset string;               (* existing directories *)
  imageCache : gmap string Buffer;  (* the module-level Map of image.ts *)
  uuids : nat;                      (* calls of crypto.randomUUID so far *)
  sent : list json;                 (* bodies given to client.send *)
  spawned : list string;            (* commands given to exec *)
  console : list (string * Error)   (* console.error lines *)
}.

Record Env := mkEnv {
  cwd : string;                          (* process.cwd() *)
  platform : string;                     (* process.platform *)
  randomUUID : nat -> string;            (* the n-th crypto.randomUUID() *)
  read_fault : string -> option Error;   (* fs.readFile refusing a path *)
  write_fault : string -> option Error;  (* fs.writeFile refusing a path *)
  mkdir_fault : string -> option Error;  (* fs.mkdir refusing a path *)
  exec_error : string -> option Error;   (* what exec hands to its callback *)
  send : nat -> json -> Outcome string;  (* the n-th client.send, decoded *)
  JSON_parse : string -> Outcome json;
  toString_base64 : Buffer -> string;    (* buffer.toString('base64') *)
  Buffer_from_base64 : json -> Outcome Buffer  (* Buffer.from(v, 'base64') *)
}.

Definition set_files (f : gmap string Buffer) (w : World) : World :=
  mkWorld f (dirs w) (imageCache w) (uuids w) (sent w) (spawned w) (console w).
Definition set_dirs (d : gset string) (w : World) : World :=
  mkWorld (files w) d (imageCache w) (uuids w) (sent w) (spawned w) (console w).
Definition set_imageCache (c : gmap string Buffer) (w : World) : World :=
  mkWorld (files w) (dirs w) c (uuids w) (sent w) (spawned w) (console w).
Definition set_uuids (n : nat) (w : World) : World :=
  mkWorld (files w) (dirs w) (imageCache w) n (sent w) (spawned w) (console w).
Definition set_sent (l : list json) (w : World) : World :=
  mkWorld (files w) (dirs w) (imageCache w) (uuids w) l (spawned w) (console w).
Definition set_spawned (l : list string) (w : World) : World :=
  mkWorld (files w) (dirs w) (imageCache w) (uuids w) (sent w) l (console w).
Definition set_console (l : list (string * Error)) (w : World) : World :=
  mkWorld (files w) (dirs w) (imageCache w) (uuids w) (sent w) (spawned w) l.

(** ** The monad of asynchronous functions *)

Definition M (A : Type) : Type := World -> Outcome A * World.

Definition ret {A} (a : A) : M A := fun w => (Ok a, w).
Definition throw {A} (e : Error) : M A := fun w => (Throw e, w).

Definition bind {A B} (m : M A) (k : A -> M B) : M B :=
  fun w =>
    match m w with
    | (Ok a, w') => k a w'
    | (Throw e, w') => (Throw e, w')
    end.

(** [try { m } catch (error) { h error }] *)
Definition try_catch {A} (m : M A) (h : Error -> M A) : M A :=
  fun w =>
    match m w with
    | (Ok a, w') => (Ok a, w')
    | (Throw e, w') => h e w'
    end.

Notation "'do' x <- m ; k" := (bind m (fun x => k))
  (at level 10, x name, m at level 100, k at level 200).
Notation "m ;; k" := (bind m (fun _ => k))
  (at level 100, k at level 200, right associativity).

(** [console.error(label, error)] *)
Definition console_error (label : string) (e : Error) : M unit :=
  fun w => (Ok tt, set_console ((label, e) :: console w) w).

(** ** Node's [fs], [crypto] and [child_process], as the program uses them *)

Fixpoint ancestors (fuel : nat) (p : string) : gset string :=
  match fuel with
  | O => {[ p ]}
  | S n => {[ p ]} ∪ ancestors n (path.dirname p)
  end.

Section Node.
Variable env : Env.

Definition ENOENT (p : string) : Error :=
  new_Error ("ENOENT: no such file or directory, open '" +:+ p +:+ "'").

(** [fs.existsSync]: true for a directory and for a regular file. *)
Definition existsSync (p : string) : M bool :=
  fun w =>
    (Ok (bool_decide (p ∈ dirs w) || bool_decide (p ∈ dom (files w))), w).

Definition readFile (p : string) : M Buffer :=
  fun w =>
    match read_fault env p with
    | Some e => (Throw e, w)
    | None =>
        match files w !! p with
        | Some b => (Ok b, w)
        | None => (Throw (ENOENT p), w)
        end
    end.

(** [fs.writeFile] with its default flag ['w']: the file is created or
    replaced. *)
Definition writeFile (p : string) (data : Buffer) : M unit :=
  fun w =>
    match write_fault env p with
    | Some e => (Throw e, w)
    | None => (Ok tt, set_files (<[p := data]> (files w)) w)
    end.

(** [fs.mkdir(p, {recursive: true})]: [p] and the directories above it. *)
Definition mkdir_recursive (p : string) : M unit :=
  fun w =>
    match mkdir_fault env p with
    | Some e => (Throw e, w)
    | None => (Ok tt, set_dirs (dirs w ∪ ancestors (String.length p) p) w)
    end.

Definition crypto_randomUUID : M string :=
  fun w => (Ok (randomUUID env (uuids w)), set_uuids (S (uuids w)) w).

(** [exec(command, callback)] with the callback of [saveImage]:
    [(error) => { if (error) console.error('Error opening image:', error) }].
    The callback runs after [saveImage] has returned; it only writes to
    the console, so its effect is recorded at the call. *)
Definition exec_open (command : string) : M unit :=
  fun w =>
    let w' := set_spawned (command :: spawned w) w in
    match exec_error env command with
    | Some error => console_error "Error opening image:" error w'
    | None => (Ok tt, w')
    end.

(** ** [utils/image.ts] *)

Definition imagesDir : string := path.join (cwd env) "images".

(** The statements run when the module is loaded. *)
Definition image_module_init : M unit :=
  do ex <- existsSync imagesDir;
  if negb ex then mkdir_recursive imagesDir else ret tt.

Definition imageCache_set (k : string) (v : Buffer) : M unit :=
  fun w => (Ok tt, set_imageCache (<[k := v]> (imageCache w)) w).

Definition getImage_read (imageId : string) : M Buffer :=
  let imagePath := path.join imagesDir (imageId +:+ ".png") in
  do imageData <- readFile imagePath;
  imageCache_set imageId imageData;;
  ret imageData.

Definition getImage (imageId : string) : M Buffer :=
  fun w =>
    match imageCache w !! imageId with
    | Some b => (Ok b, w)
    | None =>
        try_catch (getImage_read imageId)
          (fun error =>
             console_error ("Error retrieving image " +:+ imageId +:+ ":")
               error;;
             throw (new_Error ("Image " +:+ imageId +:+ " not found")))
          w
    end.

Definition open_command (imagePath : string) : string :=
  if bool_decide (platform env = "win32") then "start " +:+ imagePath
  else if bool_decide (platform env = "darwin") then "open " +:+ imagePath
  else "xdg-open " +:+ imagePath.

(** [outputPath || path.join(imagesDir, `${imageId}.png`)] *)
Definition resolve_path (outputPath imageId : string) : string :=
  if truthy_json (JStr outputPath) then outputPath
  else path.join imagesDir (imageId +:+ ".png").

Definition saveImage_try (imageBytes : Buffer) (openBrowser : bool)
    (outputPath : string) : M ImageResponse :=
  do imageId <- crypto_randomUUID;
  let imagePath := resolve_path outputPath imageId in
  let dir := path.dirname imagePath in
  do ex <- existsSync dir;
  (if negb ex then mkdir_recursive dir else ret tt);;
  writeFile imagePath imageBytes;;
  imageCache_set imageId imageBytes;;
  let response :=
    {| imageId := imageId; imagePath := imagePath;
       url := Some ("file://" +:+ imagePath) |} in
  (if openBrowser then exec_open (open_command imagePath) else ret tt);;
  ret response.

(** [openBrowser] has the default [true], which applies to an omitted
    argument; every caller passes a boolean. *)
Definition saveImage (imageBytes : Buffer) (openBrowser : bool)
    (outputPath : string) : M ImageResponse :=
  try_catch (saveImage_try imageBytes openBrowser outputPath)
    (fun error => console_error "Error saving image:" error;; throw error).

(** ** [utils/bedrock.ts] *)

(** [client.send(new InvokeModelCommand({..., body: JSON.stringify(body)}))]
    followed by [new TextDecoder().decode(response.body)]. *)
Definition client_send (body : json) : M string :=
  fun w =>
    let w' := set_sent (body :: sent w) w in
    match send env (length (sent w)) body with
    | Ok t => (Ok t, w')
    | Throw e => (Throw e, w')
    end.

Definition parse (t : string) : M json :=
  fun w =>
    match JSON_parse env t with
    | Ok j => (Ok j, w)
    | Throw e => (Throw e, w)
    end.

(** [responseBody.key] for a key that is no built-in property of strings,
    arrays, numbers or booleans ([images], [image]): reading a property of
    [null] throws. *)
Definition member (responseBody : json) (key : string) : M jsval :=
  match responseBody with
  | JNull =>
      throw (new_TypeError
               ("Cannot read properties of null (reading '" +:+ key +:+ "')"))
  | JObj fields => ret (own_property fields key)
  | _ => ret None
  end.

(** [Buffer.from(imageBase64, 'base64')]; the program calls it on a truthy
    value only, so the [undefined] case is not reached. *)
Definition Buffer_from (imageBase64 : jsval) : M Buffer :=
  fun w =>
    match imageBase64 with
    | Some v =>
        match Buffer_from_base64 env v with
        | Ok b => (Ok b, w)
        | Throw e => (Throw e, w)
        end
    | None =>
        (Throw (new_TypeError "The first argument must be of type string"), w)
    end.

Definition generateImage_try (body : json) : M Buffer :=
  do response <- client_send body;
  do responseBody <- parse response;
  do images <- member responseBody "images";
  let first := index0 images in
  do imageBase64 <-
    (if truthy first then ret first else member responseBody "image");
  if negb (truthy imageBase64)
  then throw (new_Error "No image data in response")
  else Buffer_from imageBase64.

Definition generateImage (body : json) : M Buffer :=
  try_catch (generateImage_try body)
    (fun error => console_error "Error generating image:" error;; throw error).

End Node.

(** ** The tool handlers

    One module per file of [tools/].  The parameter records are the
    [z.infer] types of the schemas: the protocol host has parsed the
    arguments, so defaulted fields are present.  Each handler is
    [try { ..._try } catch (error) { ... }]. *)

Definition imageGenerationConfig_one (height width cfg_scale : Q) : json :=
  JObj [("numberOfImages", JNum 1); ("height", JNum height);
        ("width", JNum width); ("cfgScale", JNum cfg_scale)].

Module TextToImage.
Record TextToImageParams := {
  prompt : string;
  output_path : string;
  negative_prompt : string;
  height : Q;
  width : Q;
  num_images : Q;
  cfg_scale : Q;
  seed : Q;
  open_browser : bool
}.

Definition textToImage_body (params : TextToImageParams) : json :=
  JObj [("taskType", JStr "TEXT_IMAGE");
        ("textToImageParams",
          JObj [("text", JStr (prompt params));
                ("negativeText", JStr (negative_prompt params))]);
        ("imageGenerationConfig",
          JObj [("height", JNum (height params));
                ("width", JNum (width params));
                ("numberOfImages", JNum (num_images params));
                ("cfgScale", JNum (cfg_scale params));
                ("seed", JNum (seed params))])].

Definition textToImage_success : string :=
  "Image generated successfully. Saved location: ".
Definition textToImage_label : string := "Error in text to image generation:".
Definition textToImage_failure : string :=
  "Error occurred while generating image: ".

Section Handler.
Variable env : Env.

Definition textToImage_try (params : TextToImageParams) : M CallToolResult :=
  do imageBytes <- generateImage env (textToImage_body params);
  do imageInfo <-
    saveImage env imageBytes (open_browser params) (output_path params);
  ret (text_result (textToImage_success +:+ imagePath imageInfo)).

Definition textToImage (params : TextToImageParams) : M CallToolResult :=
  try_catch (textToImage_try params)
    (fun error =>
       console_error textToImage_label error;;
       ret (text_result (textToImage_failure +:+ message error))).
End Handler.
End TextToImage.

Module Inpainting.
Record InpaintingParams := {
  image_path : string;
  prompt : string;
  mask_prompt : string;
  output_path : string;
  negative_prompt : string;
  height : Q;
  width : Q;
  cfg_scale : Q;
  open_browser : bool
}.

Definition inpainting_body (params : InpaintingParams) (inputImage : string)
    : json :=
  JObj [("taskType", JStr "INPAINTING");
        ("inpaintingParams",
          JObj [("image", JStr inputImage);
                ("text", JStr (prompt params));
                ("negativeText", JStr (negative_prompt params));
                ("maskPrompt", JStr (mask_prompt params))]);
        ("imageGenerationConfig",
          imageGenerationConfig_one (height params) (width params)
            (cfg_scale params))].

Definition inpainting_success : string :=
  "Inpainting completed successfully. Saved location: ".
Definition inpainting_label : string := "Error in inpainting:".
Definition inpainting_failure : string := "Error occurred during inpainting: ".

Section Handler.
Variable env : Env.

Definition inpainting_try (params : InpaintingParams) : M CallToolResult :=
  do imageBuffer <- readFile env (image_path params);
  let inputImage := toString_base64 env imageBuffer in
  do imageBytes <- generateImage env (inpainting_body params inputImage);
  do imageInfo <-
    saveImage env imageBytes (open_browser params) (output_path params);
  ret (text_result (inpainting_success +:+ imagePath imageInfo)).

Definition inpainting (params : InpaintingParams) : M CallToolResult :=
  try_catch (inpainting_try params)
    (fun error =>
       console_error inpainting_label error;;
       ret (text_result (inpainting_failure +:+ message error))).
End Handler.
End Inpainting.

Module Outpainting.
Record OutpaintingParams := {
  prompt : string;
  output_path : string;
  image_path : string;
  mask_image_path : string;
  negative_prompt : string;
  height : Q;
  width : Q;
  outpainting_mode : string;
  cfg_scale : Q;
  open_browser : bool
}.

Definition outpainting_body (params : OutpaintingParams)
    (inputImage maskImage : string) : json :=
  JObj [("taskType", JStr "OUTPAINTING");
        ("outpaintingParams",
          JObj [("image", JStr inputImage);
                ("maskImage", JStr maskImage);
                ("text", JStr (prompt params));
                ("negativeText", JStr (negative_prompt params));
                ("outpaintingMode", JStr (outpainting_mode params))]);
        ("imageGenerationConfig",
          imageGenerationConfig_one (height params) (width params)
            (cfg_scale params))].

Definition outpainting_success : string :=
  "Outpainting completed successfully. Saved location: ".
Definition outpainting_label : string := "Error in outpainting:".
Definition outpainting_failure : string :=
  "Error occurred during outpainting: ".

Section Handler.
Variable env : Env.

Definition outpainting_try (params : OutpaintingParams) : M CallToolResult :=
  do imageBuffer <- readFile env (image_path params);
  let inputImage := toString_base64 env imageBuffer in
  do maskBuffer <- readFile env (mask_image_path params);
  let maskImage := toString_base64 env maskBuffer in
  do imageBytes <-
    generateImage env (outpainting_body params inputImage maskImage);
  do imageInfo <-
    saveImage env imageBytes (open_browser params) (output_path params);
  ret (text_result (outpainting_success +:+ imagePath imageInfo)).

Definition outpainting (params : OutpaintingParams) : M CallToolResult :=
  try_catch (outpainting_try params)
    (fun error =>
       console_error outpainting_label error;;
       ret (text_result (outpainting_failure +:+ message error))).
End Handler.
End Outpainting.

Module ImageVariation.
Record ImageVariationParams := {
  image_paths : list string;
  prompt : string;
  negative_prompt : string;
  similarity_strength : Q;
  height : Q;
  width : Q;
  cfg_scale : Q;
  open_browser : bool;
  output_path : string
}.

Definition imageVariation_body (params : ImageVariationParams)
    (images : list string) : json :=
  JObj [("taskType", JStr "IMAGE_VARIATION");
        ("imageVariationParams",
          JObj [("images", JArr (JStr <$> images));
                ("text", JStr (prompt params));
                ("negativeText", JStr (negative_prompt params));
                ("similarityStrength", JNum (similarity_strength params))]);
        ("imageGenerationConfig",
          imageGenerationConfig_one (height params) (width params)
            (cfg_scale params))].

Definition imageVariation_success : string :=
  "Image variation generated successfully. Saved location: ".
Definition imageVariation_label : string := "Error in image variation:".
Definition imageVariation_failure : string :=
  "Error occurred during image variation: ".

Section Handler.
Variable env : Env.

(** [for (const imagePath of image_paths) { images.push(...) }] *)
Fixpoint read_images (image_paths : list string) (images : list string)
    : M (list string) :=
  match image_paths with
  | [] => ret images
  | imagePath :: rest =>
      do imageBuffer <- readFile env imagePath;
      read_images rest (images ++ [toString_base64 env imageBuffer])%list
  end.

Definition imageVariation_try (params : ImageVariationParams)
    : M CallToolResult :=
  do images <- read_images (image_paths params) [];
  do imageBytes <- generateImage env (imageVariation_body params images);
  do imageInfo <-
    saveImage env imageBytes (open_browser params) (output_path params);
  ret (text_result (imageVariation_success +:+ imagePath imageInfo)).

Definition imageVariation (params : ImageVariationParams) : M CallToolResult :=
  try_catch (imageVariation_try params)
    (fun error =>
       console_error imageVariation_label error;;
       ret (text_result (imageVariation_failure +:+ message error))).
End Handler.
End ImageVariation.

Module ImageConditioning.
Record ImageConditioningParams := {
  image_path : string;
  prompt : string;
  output_path : string;
  negative_prompt : string;
  control_mode : string;
  height : Q;
  width : Q;
  cfg_scale : Q;
  open_browser : bool
}.

Definition imageConditioning_body (params : ImageConditioningParams)
    (inputImage : string) : json :=
  JObj [("taskType", JStr "IMAGE_CONDITIONING");
        ("imageConditioningParams",
          JObj [("image", JStr inputImage);
                ("text", JStr (prompt params));
                ("negativeText", JStr (negative_prompt params));
                ("controlMode", JStr (control_mode params))]);
        ("imageGenerationConfig",
          imageGenerationConfig_one (height params) (width params)
            (cfg_scale params))].

Definition imageConditioning_success : string :=
  "Image conditioning completed successfully. Saved location: ".
Definition imageConditioning_label : string := "Error in image conditioning:".
Definition imageConditioning_failure : string :=
  "Error occurred during image conditioning: ".

Section Handler.
Variable env : Env.

Definition imageConditioning_try (params : ImageConditioningParams)
    : M CallToolResult :=
  do imageBuffer <- readFile env (image_path params);
  let inputImage := toString_base64 env imageBuffer in
  do imageBytes <- generateImage env (imageConditioning_body params inputImage);
  do imageInfo <-
    saveImage env imageBytes (open_browser params) (output_path params);
  ret (text_result (imageConditioning_success +:+ imagePath imageInfo)).

Definition imageConditioning (params : ImageConditioningParams)
    : M CallToolResult :=
  try_catch (imageConditioning_try params)
    (fun error =>
       console_error imageConditioning_label error;;
       ret (text_result (imageConditioning_failure +:+ message error))).
End Handler.
End ImageConditioning.

Module ColorGuidedGeneration.
Record ColorGuidedGenerationParams := {
  prompt : string;
  colors : list string;
  output_path : string;
  reference_image_path : option string;
  negative_prompt : string;
  height : Q;
  width : Q;
  cfg_scale : Q;
  open_browser : bool
}.

Definition colorGuidedGeneration_base_params
    (params : ColorGuidedGenerationParams) : list (string * json) :=
  [("text", JStr (prompt params));
   ("negativeText", JStr (negative_prompt params));
   ("colors", JArr (JStr <$> colors params))].

Definition colorGuidedGeneration_body (params : ColorGuidedGenerationParams)
    (colorGuidedGenerationParams : list (string * json)) : json :=
  JObj [("taskType", JStr "COLOR_GUIDED_GENERATION");
        ("colorGuidedGenerationParams", JObj colorGuidedGenerationParams);
        ("imageGenerationConfig",
          JObj [("height", JNum (height params));
                ("width", JNum (width params));
                ("numberOfImages", JNum 1);
                ("cfgScale", JNum (cfg_scale params))])].

Definition colorGuidedGeneration_success : string :=
  "Color guided image generated successfully. Saved location: ".
Definition colorGuidedGeneration_label : string :=
  "Error in color guided generation:".
Definition colorGuidedGeneration_failure : string :=
  "Error occurred during color guided generation: ".

Section Handler.
Variable env : Env.

Definition colorGuidedGeneration_try (params : ColorGuidedGenerationParams)
    : M CallToolResult :=
  do colorGuidedGenerationParams <-
    match reference_image_path params with
    | Some p =>
        if truthy_json (JStr p) then
          do imageBuffer <- readFile env p;
          ret (colorGuidedGeneration_base_params params ++
               [("referenceImage",
                 JStr (toString_base64 env imageBuffer))])%list
        else ret (colorGuidedGeneration_base_params params)
    | None => ret (colorGuidedGeneration_base_params params)
    end;
  do imageBytes <-
    generateImage env
      (colorGuidedGeneration_body params colorGuidedGenerationParams);
  do imageInfo <-
    saveImage env imageBytes (open_browser params) (output_path params);
  ret (text_result (colorGuidedGeneration_success +:+ imagePath imageInfo)).

Definition colorGuidedGeneration (params : ColorGuidedGenerationParams)
    : M CallToolResult :=
  try_catch (colorGuidedGeneration_try params)
    (fun error =>
       console_error colorGuidedGeneration_label error;;
       ret (text_result (colorGuidedGeneration_failure +:+ message error))).
End Handler.
End ColorGuidedGeneration.

Module BackgroundRemoval.
Record BackgroundRemovalParams := {
  image_path : string;
  output_path : string;
  open_browser : bool
}.

Definition backgroundRemoval_body (inputImage : string) : json :=
  JObj [("taskType", JStr "BACKGROUND_REMOVAL");
        ("backgroundRemovalParams", JObj [("image", JStr inputImage)])].

Definition backgroundRemoval_success : string :=
  "Background removed successfully. Saved location: ".
Definition backgroundRemoval_label : string := "Error in background removal:".
Definition backgroundRemoval_failure : string :=
  "Error occurred while removing background: ".

Section Handler.
Variable env : Env.

Definition backgroundRemoval_try (params : BackgroundRemovalParams)
    : M CallToolResult :=
  do imageBuffer <- readFile env (image_path params);
  let inputImage := toString_base64 env imageBuffer in
  do imageBytes <- generateImage env (backgroundRemoval_body inputImage);
  do imageInfo <-
    saveImage env imageBytes (open_browser params) (output_path params);
  ret (text_result (backgroundRemoval_success +:+ imagePath imageInfo)).

Definition backgroundRemoval (params : BackgroundRemovalParams)
    : M CallToolResult :=
  try_catch (backgroundRemoval_try params)
    (fun error =>
       console_error backgroundRemoval_label error;;
       ret (text_result (backgroundRemoval_failure +:+ message error))).
End Handler.
End BackgroundRemoval.

(** ** [server.ts]: the registered tools *)

Inductive ToolCall : Type :=
  | text_to_image (params : TextToImage.TextToImageParams)
  | inpainting (params : Inpainting.InpaintingParams)
  | outpainting (params : Outpainting.OutpaintingParams)
  | image_variation (params : ImageVariation.ImageVariationParams)
  | image_conditioning (params : ImageConditioning.ImageConditioningParams)
  | color_guided_generation
      (params : ColorGuidedGeneration.ColorGuidedGenerationParams)
  | background_removal (params : BackgroundRemoval.BackgroundRemovalParams).

Section Server.
Variable env : Env.

(** The handler [mcp.tool] registers under each name. *)
Definition call_tool (c : ToolCall) : M CallToolResult :=
  match c with
  | text_to_image p => TextToImage.textToImage env p
  | inpainting p => Inpainting.inpainting env p
  | outpainting p => Outpainting.outpainting env p
  | image_variation p => ImageVariation.imageVariation env p
  | image_conditioning p => ImageConditioning.imageConditioning env p
  | color_guided_generation p =>
      ColorGuidedGeneration.colorGuidedGeneration env p
  | background_removal p => BackgroundRemoval.backgroundRemoval env p
  end.

(** The [try] block of each handler. *)
Definition tool_try (c : ToolCall) : M CallToolResult :=
  match c with
  | text_to_image p => TextToImage.textToImage_try env p
  | inpainting p => Inpainting.inpainting_try env p
  | outpainting p => Outpainting.outpainting_try env p
  | image_variation p => ImageVariation.imageVariation_try env p
  | image_conditioning p => ImageConditioning.imageConditioning_try env p
  | color_guided_generation p =>
      ColorGuidedGeneration.colorGuidedGeneration_try env p
  | background_removal p => BackgroundRemoval.backgroundRemoval_try env p
  end.

(** The strings of each handler's [catch] block and success message. *)
Definition failure_prefix (c : ToolCall) : string :=
  match c with
  | text_to_image _ => TextToImage.textToImage_failure
  | inpainting _ => Inpainting.inpainting_failure
  | outpainting _ => Outpainting.outpainting_failure
  | image_variation _ => ImageVariation.imageVariation_failure
  | image_conditioning _ => ImageConditioning.imageConditioning_failure
  | color_guided_generation _ =>
      ColorGuidedGeneration.colorGuidedGeneration_failure
  | background_removal _ => BackgroundRemoval.backgroundRemoval_failure
  end.

Definition console_label (c : ToolCall) : string :=
  match c with
  | text_to_image _ => TextToImage.textToImage_label
  | inpainting _ => Inpainting.inpainting_label
  | outpainting _ => Outpainting.outpainting_label
  | image_variation _ => ImageVariation.imageVariation_label
  | image_conditioning _ => ImageConditioning.imageConditioning_label
  | color_guided_generation _ =>
      ColorGuidedGeneration.colorGuidedGeneration_label
  | background_removal _ => BackgroundRemoval.backgroundRemoval_label
  end.

Definition success_prefix (c : ToolCall) : string :=
  match c with
  | text_to_image _ => TextToImage.textToImage_success
  | inpainting _ => Inpainting.inpainting_success
  | outpainting _ => Outpainting.outpainting_success
  | image_variation _ => ImageVariation.imageVariation_success
  | image_conditioning _ => ImageConditioning.imageConditioning_success
  | color_guided_generation _ =>
      ColorGuidedGeneration.colorGuidedGeneration_success
  | background_removal _ => BackgroundRemoval.backgroundRemoval_success
  end.

(** The requested output path and viewer flag of a call. *)
Definition output_path_of (c : ToolCall) : string :=
  match c with
  | text_to_image p => TextToImage.output_path p
  | inpainting p => Inpainting.output_path p
  | outpainting p => Outpainting.output_path p
  | image_variation p => ImageVariation.output_path p
  | image_conditioning p => ImageConditioning.output_path p
  | color_guided_generation p => ColorGuidedGeneration.output_path p
  | background_removal p => BackgroundRemoval.output_path p
  end.

(** The input files a call reads, in the order the handler reads them. *)
Definition input_paths (c : ToolCall) : list string :=
  match c with
  | text_to_image _ => []
  | inpainting p => [Inpainting.image_path p]
  | outpainting p =>
      [Outpainting.image_path p; Outpainting.mask_image_path p]
  | image_variation p => ImageVariation.image_paths p
  | image_conditioning p => [ImageConditioning.image_path p]
  | color_guided_generation p =>
      match ColorGuidedGeneration.reference_image_path p with
      | Some r => if truthy_json (JStr r) then [r] else []
      | None => []
      end
  | background_removal p => [BackgroundRemoval.image_path p]
  end.

(** A process as a sequence of calls into the storage layer and the
    tools. *)
Inductive Call : Type :=
  | CallSave (imageBytes : Buffer) (openBrowser : bool) (outputPath : string)
  | CallGet (imageId : string)
  | CallTool (c : ToolCall).

(** Runs the calls in order; returns the [ImageResponse]s of the
    [saveImage] calls that returned, earliest first. *)
Fixpoint run (calls : list Call) (w : World) : list ImageResponse * World :=
  match calls with
  | [] => ([], w)
  | CallSave b o p :: rest =>
      match saveImage env b o p w with
      | (Ok r, w') => let (rs, w'') := run rest w' in (r :: rs, w'')
      | (Throw _, w') => run rest w'
      end
  | CallGet i :: rest => run rest (snd (getImage env i w))
  | CallTool c :: rest => run rest (snd (call_tool c w))
  end.

End Server.

(** ** Vocabulary of the specification *)

(** [j.key] read without effect: [undefined] where the read would throw. *)
Definition property (j : json) (key : string) : jsval :=
  match j with
  | JObj fields => own_property fields key
  | _ => None
  end.

(** [responseBody.images?.[0] || responseBody.image] *)
Definition select_image (j : json) : jsval :=
  let first := index0 (property j "images") in
  if truthy first then first else property j "image".

(** A decoded response with no usable image field: no non-empty first
    element of [images] and no [image] field. *)
Definition no_usable_image (j : json) : Prop :=
  truthy (index0 (property j "images")) = false /\ property j "image" = None.

(** [hay.includes(needle)] *)
Fixpoint includes (needle hay : string) : bool :=
  String.prefix needle hay ||
  match hay with
  | EmptyString => false
  | String _ rest => includes needle rest
  end.

(** [readFile] returns the content of [p]. *)
Definition readable (env : Env) (w : World) (p : string) : Prop :=
  read_fault env p = None /\ is_Some (files w !! p).

(** The base64 text a handler derives from the input file [p]. *)
Definition read_base64 (env : Env) (w : World) (p : string) : string :=
  toString_base64 env (default [] (files w !! p)).

(** The payload a handler submits once its input files are read. *)
Definition request_body (env : Env) (w : World) (c : ToolCall) : json :=
  match c with
  | text_to_image p => TextToImage.textToImage_body p
  | inpainting p =>
      Inpainting.inpainting_body p
        (read_base64 env w (Inpainting.image_path p))
  | outpainting p =>
      Outpainting.outpainting_body p
        (read_base64 env w (Outpainting.image_path p))
        (read_base64 env w (Outpainting.mask_image_path p))
  | image_variation p =>
      ImageVariation.imageVariation_body p
        (read_base64 env w <$> ImageVariation.image_paths p)
  | image_conditioning p =>
      ImageConditioning.imageConditioning_body p
        (read_base64 env w (ImageConditioning.image_path p))
  | color_guided_generation p =>
      ColorGuidedGeneration.colorGuidedGeneration_body p
        (ColorGuidedGeneration.colorGuidedGeneration_base_params p ++
         ((fun r => ("referenceImage", JStr (read_base64 env w r)))
            <$> input_paths c))%list
  | background_removal p =>
      BackgroundRemoval.backgroundRemoval_body
        (read_base64 env w (BackgroundRemoval.image_path p))
  end.

Definition open_browser_of (c : ToolCall) : bool :=
  match c with
  | text_to_image p => TextToImage.open_browser p
  | inpainting p => Inpainting.open_browser p
  | outpainting p => Outpainting.open_browser p
  | image_variation p => ImageVariation.open_browser p
  | image_conditioning p => ImageConditioning.open_browser p
  | color_guided_generation p => ColorGuidedGeneration.open_browser p
  | background_removal p => BackgroundRemoval.open_browser p
  end.

(** A computation never rewinds the identifier generator. *)
Definition uuids_mono {A} (m : M A) : Prop :=
  forall w, uuids w <= uuids (m w).2.

(** ** A sample environment and world

    Used to run the program on concrete inputs. *)

(** An identifier generator that never repeats. *)
Fixpoint unary_uuid (n : nat) : string :=
  match n with
  | O => "0"
  | S n' => String "1"%char (unary_uuid n')
  end.

Definition ABC : Buffer := [Byte.x41; Byte.x42; Byte.x43].
Definition DEF : Buffer := [Byte.x44; Byte.x45; Byte.x46].

Definition sample_decode (v : json) : Outcome Buffer :=
  match v with
  | JStr s =>
      if bool_decide (s = "QUJD") then Ok ABC
      else if bool_decide (s = "REVG") then Ok DEF
      else Ok []
  | _ => Throw (new_TypeError "The first argument must be of type string")
  end.

Definition sample_encode (b : Buffer) : string :=
  if bool_decide (Byte.to_N <$> b = Byte.to_N <$> ABC) then "QUJD"
  else if bool_decide (Byte.to_N <$> b = Byte.to_N <$> DEF) then "REVG"
  else "".

(** The remote model answers every request with two images. *)
Definition two_images : json :=
  JObj [("images", JArr [JStr "QUJD"; JStr "REVG"])].

Definition sample_env : Env :=
  {| cwd := "/srv/app";
     platform := "linux";
     randomUUID := unary_uuid;
     read_fault := fun _ => None;
     write_fault := fun _ => None;
     mkdir_fault := fun _ => None;
     exec_error := fun _ => None;
     send := fun _ _ => Ok "two images";
     JSON_parse := fun _ => Ok two_images;
     toString_base64 := sample_encode;
     Buffer_from_base64 := sample_decode |}.

Definition with_exec_error (f : string -> option Error) (env : Env) : Env :=
  mkEnv (cwd env) (platform env) (randomUUID env) (read_fault env)
    (write_fault env) (mkdir_fault env) f (send env) (JSON_parse env)
    (toString_base64 env) (Buffer_from_base64 env).

Definition with_send (f : nat -> json -> Outcome string) (env : Env) : Env :=
  mkEnv (cwd env) (platform env) (randomUUID env) (read_fault env)
    (write_fault env) (mkdir_fault env) (exec_error env) f (JSON_parse env)
    (toString_base64 env) (Buffer_from_base64 env).

Definition with_JSON_parse (f : string -> Outcome json) (env : Env) : Env :=
  mkEnv (cwd env) (platform env) (randomUUID env) (read_fault env)
    (write_fault env) (mkdir_fault env) (exec_error env) (send env) f
    (toString_base64 env) (Buffer_from_base64 env).

Definition with_write_fault (f : string -> option Error) (env : Env) : Env :=
  mkEnv (cwd env) (platform env) (randomUUID env) (read_fault env)
    f (mkdir_fault env) (exec_error env) (send env) (JSON_parse env)
    (toString_base64 env) (Buffer_from_base64 env).

Definition with_read_fault (f : string -> option Error) (env : Env) : Env :=
  mkEnv (cwd env) (platform env) (randomUUID env) f
    (write_fault env) (mkdir_fault env) (exec_error env) (send env)
    (JSON_parse env) (toString_base64 env) (Buffer_from_base64 env).

(** Sample requests. *)
Definition fox : TextToImage.TextToImageParams :=
  {| TextToImage.prompt := "a red fox";
     TextToImage.output_path := "/tmp/out.png";
     TextToImage.negative_prompt := "";
     TextToImage.height := 1024; TextToImage.width := 1024;
     TextToImage.num_images := 4;
     TextToImage.cfg_scale := 8; TextToImage.seed := 0;
     TextToImage.open_browser := true |}.

Definition repaint (image_path : string) : Inpainting.InpaintingParams :=
  {| Inpainting.image_path := image_path;
     Inpainting.prompt := "a hat";
     Inpainting.mask_prompt := "the head";
     Inpainting.output_path := "/tmp/out.png";
     Inpainting.negative_prompt := "";
     Inpainting.height := 512; Inpainting.width := 512;
     Inpainting.cfg_scale := 8;
     Inpainting.open_browser := true |}.

Definition vary (image_paths : list string)
    : ImageVariation.ImageVariationParams :=
  {| ImageVariation.image_paths := image_paths;
     ImageVariation.prompt := "";
     ImageVariation.negative_prompt := "";
     ImageVariation.similarity_strength := 7 # 10;
     ImageVariation.height := 512; ImageVariation.width := 512;
     ImageVariation.cfg_scale := 8;
     ImageVariation.open_browser := false;
     ImageVariation.output_path := "/tmp/out.png" |}.

Definition cutout : BackgroundRemoval.BackgroundRemovalParams :=
  {| BackgroundRemoval.image_path := "/in/a.png";
     BackgroundRemoval.output_path := "/tmp/out.png";
     BackgroundRemoval.open_browser := false |}.

(** Environments in which one collaborator fails. *)
Definition access_denied : Error := new_Error "EACCES: permission denied".

Definition unreadable_env : Env :=
  with_read_fault
    (fun p =>
       if bool_decide (p = "/in/c.png") then Some access_denied else None)
    sample_env.

Definition unreachable_env : Env :=
  with_send (fun _ _ => Throw access_denied) sample_env.

Definition denied_env : Env :=
  with_send
    (fun _ _ => Throw (mkError "AccessDeniedException" "not authorized"))
    sample_env.

Definition full_disk_env : Env :=
  with_write_fault
    (fun _ => Some (new_Error "ENOSPC: no space left on device, write"))
    sample_env.

Definition viewer_missing (command : string) : option Error :=
  Some (new_Error "spawn xdg-open ENOENT").

(** The remote call succeeds and its body is the JSON text [null]. *)
Definition null_response_env : Env :=
  with_send (fun _ _ => Ok "null")
    (with_JSON_parse (fun _ => Ok JNull) sample_env).

(** A freshly started process: the images directory exists, two input
    images are on disk, the cache is empty. *)
Definition sample_world : World :=
  {| files := {[ "/in/a.png" := ABC; "/in/c.png" := DEF ]};
     dirs := {[ "/"; "/in"; "/srv/app/images"; "/tmp" ]};
     imageCache := ∅;
     uuids := 0;
     sent := [];
     spawned := [];
     console := [] |}.

(** The same process after a restart: the disk is kept, the cache is lost. *)
Definition restart (w : World) : World := set_imageCache ∅ w.

(** ** [config.ts] *)

Module Config.

(** [AppConfig]; [number] is the type of JavaScript numbers. *)
Record AppConfig (number : Type) := mkAppConfig {
  modelId : string;
  region : string;
  accessKey : option string;
  secretKey : option string;
  profile : option string;
  port : number
}.
Arguments mkAppConfig {number}.
Arguments modelId {number}.
Arguments region {number}.
Arguments accessKey {number}.
Arguments secretKey {number}.
Arguments profile {number}.
Arguments port {number}.

(** [Boolean(v)] for a variable of [process.env]: absent is [undefined]. *)
Definition Boolean (v : option string) : bool :=
  match v with
  | Some s => truthy_json (JStr s)
  | None => false
  end.

(** [v || fallback] *)
Definition or_else (v : option string) (fallback : string) : string :=
  match v with
  | Some s => if truthy_json (JStr s) then s else fallback
  | None => fallback
  end.

Definition credentials_notice : string :=
  "AWS credentials are not set. Loading from .env file.".

Definition credentials_error : string :=
  "AWS credentials are not properly set. Either AWS_PROFILE or both "
  +:+ "AWS_ACCESS_KEY_ID and AWS_SECRET_ACCESS_KEY must be set.".

Section GetAppConfig.
Variable number : Type.
(** The built-in [parseInt(string, radix)]. *)
Variable parseInt : string -> Z -> number.
(** [process.env], after the module has loaded [.env] if there is one. *)
Variable process_env : gmap string string.

(** Returns the lines written with [console.log] and the outcome. *)
Definition getAppConfig : list string * Outcome (AppConfig number) :=
  let config :=
    {| modelId :=
         or_else (process_env !! "BEDROCK_MODEL_ID") "amazon.nova-canvas-v1:0";
       region := or_else (process_env !! "AWS_REGION") "us-east-1";
       accessKey := process_env !! "AWS_ACCESS_KEY_ID";
       secretKey := process_env !! "AWS_SECRET_ACCESS_KEY";
       profile := process_env !! "AWS_PROFILE";
       port := parseInt (or_else (process_env !! "PORT") "9527") 10 |} in
  let hasProfile := Boolean (profile config) in
  let hasKeys := Boolean (accessKey config) && Boolean (secretKey config) in
  if negb hasProfile && negb hasKeys then
    if negb (Boolean (profile config))
       && negb (Boolean (accessKey config) && Boolean (secretKey config))
    then ([credentials_notice], Throw (new_Error credentials_error))
    else ([credentials_notice], Ok config)
  else ([], Ok config).

End GetAppConfig.

(** A variable of [process.env] that is set to a non-empty string. *)
Definition is_set (process_env : gmap string string) (key : string) : Prop :=
  exists s, process_env !! key = Some s /\ s <> "".

End Config.

(** ** Cache entries *)

(** The worlds in which the cache holds [b] under [id] and the identifier
    generator will not produce [id] again. *)
Definition holds_entry (env : Env) (id : string) (b : Buffer) (w : World)
    : Prop :=
  imageCache w !! id = Some b
  /\ forall k, uuids w <= k -> randomUUID env k <> id.

(** More sample worlds and environments. *)
Definition cat_world : World :=
  set_files {[ "/srv/app/images/cat.png" := DEF ]} sample_world.

Definition no_reads_env : Env :=
  with_read_fault (fun _ => Some access_denied) sample_env.

Definition with_mkdir_fault (f : string -> option Error) (env : Env) : Env :=
  mkEnv (cwd env) (platform env) (randomUUID env) (read_fault env)
    (write_fault env) f (exec_error env) (send env) (JSON_parse env)
    (toString_base64 env) (Buffer_from_base64 env).

Definition read_only_env : Env :=
  with_mkdir_fault
    (fun _ => Some (new_Error "EROFS: read-only file system, mkdir"))
    sample_env.

Definition extend (image_path mask_image_path : string)
    : Outpainting.OutpaintingParams :=
  {| Outpainting.prompt := "a wider sky";
     Outpainting.output_path := "/tmp/out.png";
     Outpainting.image_path := image_path;
     Outpainting.mask_image_path := mask_image_path;
     Outpainting.negative_prompt := "";
     Outpainting.height := 512; Outpainting.width := 512;
     Outpainting.outpainting_mode := "DEFAULT";
     Outpainting.cfg_scale := 8;
     Outpainting.open_browser := true |}.

Definition palette (reference_image_path : option string)
    : ColorGuidedGeneration.ColorGuidedGenerationParams :=
  {| ColorGuidedGeneration.prompt := "a sunset";
     ColorGuidedGeneration.colors := ["#ff8800"; "#220044"];
     ColorGuidedGeneration.output_path := "/tmp/out.png";
     ColorGuidedGeneration.reference_image_path := reference_image_path;
     ColorGuidedGeneration.negative_prompt := "";
     ColorGuidedGeneration.height := 512;
     ColorGuidedGeneration.width := 512;
     ColorGuidedGeneration.cfg_scale := 8;
     ColorGuidedGeneration.open_browser := true |}.

(** A stand-in for [parseInt] on the inputs of the samples, with [None]
    for [NaN]. *)
Definition sample_parseInt (s : string) (radix : Z) : option Z :=
  if bool_decide (s = "9527") then Some 9527%Z
  else if bool_decide (s = "8080") then Some 8080%Z
  else None.

Definition profile_only : gmap string string :=
  {[ "AWS_PROFILE" := "dev"; "AWS_REGION" := "" ]}.

Definition half_a_key_pair : gmap string string :=
  {[ "AWS_PROFILE" := ""; "AWS_ACCESS_KEY_ID" := "AKIAEXAMPLE";
     "PORT" := "8080" ]}.

(** Two worlds that differ at most in the content of the cache. *)
Definition same_but_cache (w w2 : World) : Prop :=
  files w = files w2 /\ dirs w = dirs w2 /\ uuids w = uuids w2
  /\ sent w = sent w2 /\ spawned w = spawned w2 /\ console w = console w2.

(** A computation that never reads the cache: from worlds that differ only
    in the cache it returns the same outcome and reaches worlds that
    differ only in the cache. *)
Definition cache_blind {A} (m : M A) : Prop :=
  forall w w2,
    same_but_cache w w2 ->
    (m w).1 = (m w2).1 /\ same_but_cache (m w).2 (m w2).2.

(** * Properties *)

(** ** Node's [path] on sample inputs *)

Example dirname_abs : path.dirname "/tmp/out/a.png" = "/tmp/out".
Proof. reflexivity. Qed.
Example dirname_rel : path.dirname "out.png" = ".".
Proof. reflexivity. Qed.
Example dirname_root : path.dirname "/a.png" = "/".
Proof. reflexivity. Qed.
Example dirname_dslash : path.dirname "a//b" = "a/".
Proof. reflexivity. Qed.
Example join_plain : path.join "/srv/app" "images" = "/srv/app/images".
Proof. reflexivity. Qed.
Example join_dotdot : path.join "/srv/app/images" "../x.png" = "/srv/app/x.png".
Proof. reflexivity. Qed.
Example join_rel : path.join "a/../.." "b/" = "../b/".
Proof. reflexivity. Qed.

(** ** Evaluating the monad *)

Ltac unfold_prims :=
  unfold bind, try_catch, ret, throw, console_error, existsSync, readFile,
    writeFile, mkdir_recursive, crypto_randomUUID, exec_open, imageCache_set,
    client_send, parse, Buffer_from in *.

Ltac destruct_match :=
  match goal with
  | |- context [match ?x with _ => _ end] =>
      lazymatch x with
      | context [match _ with _ => _ end] => fail
      | _ => destruct x eqn:?
      end
  end.

Ltac destruct_match_in H :=
  match type of H with
  | context [match ?x with _ => _ end] =>
      lazymatch x with
      | context [match _ with _ => _ end] => fail
      | _ => destruct x eqn:?
      end
  end.

Lemma bind_Ok {A B} (m : M A) (k : A -> M B) w a w' :
  m w = (Ok a, w') -> bind m k w = k a w'.
Proof. intros H. unfold bind. by rewrite H. Qed.

Lemma bind_Throw {A B} (m : M A) (k : A -> M B) w e w' :
  m w = (Throw e, w') -> bind m k w = (Throw e, w').
Proof. intros H. unfold bind. by rewrite H. Qed.

Lemma try_catch_Ok {A} (m : M A) h w a w' :
  m w = (Ok a, w') -> try_catch m h w = (Ok a, w').
Proof. intros H. unfold try_catch. by rewrite H. Qed.

Lemma try_catch_Throw {A} (m : M A) h w e w' :
  m w = (Throw e, w') -> try_catch m h w = h e w'.
Proof. intros H. unfold try_catch. by rewrite H. Qed.

(** ** [saveImage] *)

Section SaveImage.
Variable env : Env.

(** What a returning [saveImage] has done. *)
Lemma saveImage_Ok_inv imageBytes openBrowser outputPath w r w' :
  saveImage env imageBytes openBrowser outputPath w = (Ok r, w') ->
  let id := randomUUID env (uuids w) in
  let p := resolve_path env outputPath id in
  r = {| imageId := id; imagePath := p; url := Some ("file://" +:+ p) |}
  /\ files w' = <[p := imageBytes]> (files w)
  /\ imageCache w' = <[id := imageBytes]> (imageCache w)
  /\ uuids w' = S (uuids w)
  /\ sent w' = sent w
  /\ write_fault env p = None.
Proof.
  unfold saveImage, saveImage_try. unfold_prims. simpl.
  intros H.
  repeat (destruct_match_in H; simpl in * );
    try discriminate; inversion H; subst; clear H; simpl; auto 10.
Qed.

End SaveImage.

(** ** Module initialisation *)

Lemma ancestors_self fuel p : p ∈ ancestors fuel p.
Proof.
  destruct fuel; simpl; [|apply elem_of_union_l]; by apply elem_of_singleton.
Qed.

(** Once [image.ts] is loaded, something exists at [imagesDir]. *)
Lemma image_module_init_dir env w :
  mkdir_fault env (imagesDir env) = None ->
  exists w',
    image_module_init env w = (Ok tt, w')
    /\ files w' = files w
    /\ (imagesDir env ∈ dirs w' \/ imagesDir env ∈ dom (files w')).
Proof.
  intros Hm. unfold image_module_init. unfold_prims. simpl.
  destruct (bool_decide (imagesDir env ∈ dirs w)) eqn:E1;
    destruct (bool_decide (imagesDir env ∈ dom (files w))) eqn:E2; simpl;
    try apply bool_decide_eq_true_1 in E1;
    try apply bool_decide_eq_true_1 in E2.
  1-3: eexists; split; [reflexivity|]; split; [done|]; tauto.
  rewrite Hm. eexists. split; [reflexivity|]. split; [done|]. left. simpl.
  apply elem_of_union_r, ancestors_self.
Qed.

Example image_module_init_sample :
  image_module_init sample_env (set_dirs {[ "/" ]} sample_world)
  = (Ok tt,
     set_dirs {[ "/"; "/srv"; "/srv/app"; "/srv/app/images" ]} sample_world).
Proof. vm_compute. reflexivity. Qed.

(** ** Round trip through the cache *)

(** C1. A [saveImage] that returns, followed in the same process by
    [getImage] on the returned identifier, yields exactly the saved bytes
    and leaves the world as it is, whatever [outputPath] was: the save has
    put the bytes in the cache and the lookup finds them there. *)
Theorem save_then_get_roundtrip env imageBytes openBrowser outputPath w r w' :
  saveImage env imageBytes openBrowser outputPath w = (Ok r, w') ->
  getImage env (imageId r) w' = (Ok imageBytes, w').
Proof.
  intros H. apply saveImage_Ok_inv in H as (-> & _ & Hc & _). simpl.
  unfold getImage. by rewrite Hc, lookup_insert_eq.
Qed.

Lemma save_then_get_roundtrip_witness :
  (exists r w',
     saveImage sample_env ABC true "/tmp/out.png" sample_world = (Ok r, w')
     /\ getImage sample_env (imageId r) w' = (Ok ABC, w'))
  /\ (exists r w',
     saveImage sample_env ABC false "" sample_world = (Ok r, w')
     /\ getImage sample_env (imageId r) w' = (Ok ABC, w')).
Proof.
  split.
  - destruct (saveImage sample_env ABC true "/tmp/out.png" sample_world)
      as [[r|e] w'] eqn:E; [|by vm_compute in E].
    exists r, w'. split; [done|].
    by apply (save_then_get_roundtrip sample_env ABC true "/tmp/out.png"
                sample_world).
  - destruct (saveImage sample_env ABC false "" sample_world)
      as [[r|e] w'] eqn:E; [|by vm_compute in E].
    exists r, w'. split; [done|].
    by apply (save_then_get_roundtrip sample_env ABC false "" sample_world).
Defined.

(** ** Path resolution, directories and overwriting *)

Lemma str_nonempty c l : path.str (c :: l) <> "".
Proof. done. Qed.

Lemma normalize_nonempty p : path.normalize p <> "".
Proof.
  unfold path.normalize.
  destruct (path.chars p) as [|c0 l]; [done|].
  destruct (path.intercalate _) as [|a body]; simpl.
  - by repeat case_match.
  - repeat case_match; done.
Qed.

(** [path.join] never returns the empty string. *)
Lemma join_nonempty a b : path.join a b <> "".
Proof.
  unfold path.join. repeat case_match; try done; apply normalize_nonempty.
Qed.

Lemma resolve_path_provided env outputPath id :
  outputPath <> "" -> resolve_path env outputPath id = outputPath.
Proof.
  intros H. unfold resolve_path. simpl. by rewrite bool_decide_eq_false_2.
Qed.

Lemma resolve_path_empty env id :
  resolve_path env "" id = path.join (imagesDir env) (id +:+ ".png").
Proof. done. Qed.

(** When the write is not refused and the directory of the target exists
    or can be made, [saveImage] returns. *)
Lemma saveImage_Ok env imageBytes openBrowser outputPath w :
  let id := randomUUID env (uuids w) in
  let p := resolve_path env outputPath id in
  let dir := path.dirname p in
  write_fault env p = None ->
  (dir ∈ dirs w \/ dir ∈ dom (files w) \/ mkdir_fault env dir = None) ->
  exists w',
    saveImage env imageBytes openBrowser outputPath w
    = (Ok {| imageId := id; imagePath := p; url := Some ("file://" +:+ p) |},
       w')
    /\ (dir ∈ dirs w \/ dir ∈ dom (files w) -> dirs w' = dirs w)
    /\ (~ (dir ∈ dirs w \/ dir ∈ dom (files w)) ->
        dirs w' = dirs w ∪ ancestors (String.length dir) dir).
Proof.
  intros id p dir Hw Hd.
  unfold saveImage, saveImage_try. unfold_prims. simpl.
  fold id. fold p. fold dir. rewrite Hw.
  destruct (bool_decide (dir ∈ dirs w)) eqn:E1;
    destruct (bool_decide (dir ∈ dom (files w))) eqn:E2; simpl;
    try apply bool_decide_eq_true_1 in E1;
    try apply bool_decide_eq_true_1 in E2;
    try apply bool_decide_eq_false_1 in E1;
    try apply bool_decide_eq_false_1 in E2.
  1-3: destruct openBrowser; simpl; [destruct (exec_error env _)|];
    simpl; eexists; (split; [reflexivity|]); simpl; split; tauto.
  destruct Hd as [?|[?|Hm]]; [done..|]. rewrite Hm. simpl.
  destruct openBrowser; simpl; [destruct (exec_error env _)|];
    simpl; eexists; (split; [reflexivity|]); simpl; split; tauto.
Qed.



(** C10. An empty [outputPath] counts as not given: the bytes go to
    [<imagesDir>/<identifier>.png], that path is the one in the returned
    record, and nothing is written under the empty path. *)
Theorem saveImage_empty_outputPath env imageBytes openBrowser w :
  let id := randomUUID env (uuids w) in
  let p := path.join (imagesDir env) (id +:+ ".png") in
  let dir := path.dirname p in
  write_fault env p = None ->
  (dir ∈ dirs w \/ dir ∈ dom (files w) \/ mkdir_fault env dir = None) ->
  exists w',
    saveImage env imageBytes openBrowser "" w
    = (Ok {| imageId := id; imagePath := p; url := Some ("file://" +:+ p) |},
       w')
    /\ files w' = <[p := imageBytes]> (files w)
    /\ p <> ""
    /\ files w' !! "" = files w !! "".
Proof.
  intros id p dir Hw Hd.
  destruct (saveImage_Ok env imageBytes openBrowser "" w Hw Hd)
    as (w' & Hs & _).
  exists w'. split; [exact Hs|].
  apply saveImage_Ok_inv in Hs as (_ & Hf & _).
  rewrite resolve_path_empty in Hf. fold id in Hf. fold p in Hf.
  assert (Hne : p <> "") by apply join_nonempty.
  split; [done|]. split; [done|].
  by rewrite Hf, lookup_insert_ne.
Qed.

Lemma saveImage_empty_outputPath_witness :
  exists w',
    saveImage sample_env ABC true "" sample_world
    = (Ok {| imageId := "0"; imagePath := "/srv/app/images/0.png";
             url := Some "file:///srv/app/images/0.png" |}, w')
    /\ files w' !! "/srv/app/images/0.png" = Some ABC
    /\ files w' !! "" = None.
Proof.
  destruct (saveImage_empty_outputPath sample_env ABC true sample_world)
    as (w' & Hs & Hf & _ & He).
  - reflexivity.
  - left. vm_compute. reflexivity.
  - exists w'. split; [exact Hs|]. split.
    + rewrite Hf. apply lookup_insert_eq.
    + rewrite He. reflexivity.
Defined.

(** ** Lookup after the cache entry is gone *)

Lemma getImage_miss env imageId w :
  imageCache w !! imageId = None ->
  files w !! path.join (imagesDir env) (imageId +:+ ".png") = None ->
  exists e,
    getImage env imageId w
    = (Throw (new_Error ("Image " +:+ imageId +:+ " not found")),
       set_console (("Error retrieving image " +:+ imageId +:+ ":", e)
                      :: console w) w).
Proof.
  intros Hc Hf. unfold getImage, getImage_read. rewrite Hc.
  unfold_prims. rewrite Hf.
  destruct (read_fault env _) as [e|]; eexists; reflexivity.
Qed.

(** C9. After a save to an explicit [outputPath] other than the default
    file of the new identifier (none existing there), any later state of
    the same disk in which the cache has no entry for the identifier, such
    as the restarted process, still holds the saved bytes at [outputPath],
    yet [getImage] on the identifier throws ["Image <id> not found"]: it
    only tries [<imagesDir>/<id>.png]. *)
Theorem getImage_misses_explicit_outputPath
    env imageBytes openBrowser outputPath w r w' w'' :
  outputPath <> "" ->
  outputPath
    <> path.join (imagesDir env) (randomUUID env (uuids w) +:+ ".png") ->
  files w !! path.join (imagesDir env) (randomUUID env (uuids w) +:+ ".png")
    = None ->
  saveImage env imageBytes openBrowser outputPath w = (Ok r, w') ->
  files w'' = files w' ->
  imageCache w'' !! imageId r = None ->
  files w'' !! outputPath = Some imageBytes
  /\ exists wf,
       getImage env (imageId r) w''
       = (Throw (new_Error ("Image " +:+ imageId r +:+ " not found")), wf)
       /\ files wf = files w''.
Proof.
  intros Hne Hout Hfree Hs Hf Hc.
  apply saveImage_Ok_inv in Hs as (-> & Hf' & _). simpl in *.
  rewrite resolve_path_provided in Hf' by done.
  split; [by rewrite Hf, Hf', lookup_insert_eq|].
  destruct (getImage_miss env (randomUUID env (uuids w)) w'' Hc) as [e He].
  { by rewrite Hf, Hf', lookup_insert_ne. }
  eexists. split; [exact He|done].
Qed.

Lemma getImage_misses_explicit_outputPath_witness :
  exists w' wf,
    saveImage sample_env ABC false "/tmp/out.png" sample_world
    = (Ok {| imageId := "0"; imagePath := "/tmp/out.png";
             url := Some "file:///tmp/out.png" |}, w')
    /\ files (restart w') !! "/tmp/out.png" = Some ABC
    /\ getImage sample_env "0" (restart w')
       = (Throw (new_Error "Image 0 not found"), wf).
Proof.
  destruct (saveImage sample_env ABC false "/tmp/out.png" sample_world)
    as [[r|e] w'] eqn:E; [|by vm_compute in E].
  destruct (getImage_misses_explicit_outputPath sample_env ABC false
              "/tmp/out.png" sample_world r w' (restart w'))
    as (Hfile & wf & Hget & _).
  - discriminate.
  - discriminate.
  - reflexivity.
  - exact E.
  - reflexivity.
  - reflexivity.
  - apply saveImage_Ok_inv in E as (-> & _). exists w', wf.
    split; [reflexivity|]. split; [exact Hfile|exact Hget].
Defined.

(** ** The viewer *)

(** C8. With [openBrowser] true, a save that returns has handed the viewer
    command to [exec]; whatever [exec] reports to its callback (any [f] in
    place of the environment's [exec_error]), the same save returns the
    same record and leaves the same files, directories and cache, and a
    reported failure appears on the console only. *)
Theorem saveImage_viewer_failure_swallowed env imageBytes outputPath w r w' :
  saveImage env imageBytes true outputPath w = (Ok r, w') ->
  let command := open_command env (imagePath r) in
  url r = Some ("file://" +:+ imagePath r)
  /\ spawned w' = command :: spawned w
  /\ forall f, exists w2,
       saveImage (with_exec_error f env) imageBytes true outputPath w
       = (Ok r, w2)
       /\ files w2 = files w' /\ dirs w2 = dirs w'
       /\ imageCache w2 = imageCache w' /\ spawned w2 = spawned w'
       /\ console w2 = match f command with
                       | Some error =>
                           ("Error opening image:", error) :: console w
                       | None => console w
                       end.
Proof.
  unfold saveImage, saveImage_try. unfold_prims. simpl.
  intros H.
  repeat (destruct_match_in H; simpl in * );
    try discriminate; inversion H; subst; clear H; simpl;
    (split; [done|]); (split; [done|]); intros f;
    change (resolve_path (with_exec_error f env)) with (resolve_path env);
    change (open_command (with_exec_error f env)) with (open_command env);
    repeat match goal with
           | E : ?x = _ |- context [?x] => rewrite E
           end; simpl;
    destruct (f _); simpl; eexists; (split; [reflexivity|]); simpl; done.
Qed.

Lemma saveImage_viewer_failure_swallowed_witness :
  exists w1 w2,
    saveImage sample_env ABC true "/tmp/out.png" sample_world
    = (Ok {| imageId := "0"; imagePath := "/tmp/out.png";
             url := Some "file:///tmp/out.png" |}, w1)
    /\ saveImage (with_exec_error viewer_missing sample_env) ABC true
         "/tmp/out.png" sample_world
       = (Ok {| imageId := "0"; imagePath := "/tmp/out.png";
                url := Some "file:///tmp/out.png" |}, w2)
    /\ files w2 = files w1
    /\ console w2
       = [("Error opening image:", new_Error "spawn xdg-open ENOENT")].
Proof.
  destruct (saveImage sample_env ABC true "/tmp/out.png" sample_world)
    as [[r|e] w1] eqn:E; [|by vm_compute in E].
  destruct (saveImage_viewer_failure_swallowed sample_env ABC "/tmp/out.png"
              sample_world r w1 E) as (_ & _ & H).
  destruct (H viewer_missing) as (w2 & Hs & Hf & _ & _ & _ & Hc).
  apply saveImage_Ok_inv in E as (-> & _).
  exists w1, w2. split; [reflexivity|]. split; [exact Hs|].
  split; [exact Hf|exact Hc].
Defined.

(** ** [generateImage] *)

Lemma member_property j key :
  j <> JNull -> member j key = ret (property j key).
Proof. by destruct j. Qed.

Lemma generateImage_no_image env body w t j :
  send env (length (sent w)) body = Ok t ->
  JSON_parse env t = Ok j ->
  j <> JNull ->
  truthy (index0 (property j "images")) = false ->
  truthy (property j "image") = false ->
  generateImage env body w
  = (Throw (new_Error "No image data in response"),
     set_console
       (("Error generating image:", new_Error "No image data in response")
          :: console w)
       (set_sent (body :: sent w) w)).
Proof.
  intros Hs Hp Hn Hi1 Hi2.
  unfold generateImage, generateImage_try.
  unfold_prims. rewrite Hs, Hp.
  rewrite member_property by done. unfold ret. rewrite Hi1.
  rewrite member_property by done. unfold ret. by rewrite Hi2.
Qed.

Lemma generateImage_Ok env body w t j v imageBytes :
  send env (length (sent w)) body = Ok t ->
  JSON_parse env t = Ok j ->
  select_image j = Some v ->
  truthy_json v = true ->
  Buffer_from_base64 env v = Ok imageBytes ->
  generateImage env body w = (Ok imageBytes, set_sent (body :: sent w) w).
Proof.
  intros Hs Hp Hv Ht Hb.
  assert (Hn : j <> JNull) by (intros ->; discriminate).
  unfold generateImage, generateImage_try.
  unfold_prims. rewrite Hs, Hp.
  rewrite member_property by done. unfold ret.
  unfold select_image in Hv.
  destruct (truthy (index0 (property j "images"))) eqn:E.
  - rewrite Hv. simpl. by rewrite Ht, Hb.
  - rewrite member_property by done. unfold ret.
    rewrite Hv. simpl. by rewrite Ht, Hb.
Qed.

(** [generateImage] touches neither the disk nor the cache nor the
    identifier generator. *)
Lemma generateImage_frame env body w o w' :
  generateImage env body w = (o, w') ->
  files w' = files w /\ dirs w' = dirs w /\ imageCache w' = imageCache w
  /\ uuids w' = uuids w /\ sent w' = body :: sent w.
Proof.
  unfold generateImage, generateImage_try, member. unfold_prims.
  intros H.
  repeat (destruct_match_in H; simpl in * );
    inversion H; subst; clear H; simpl; auto.
Qed.

(** ** The handlers, stage by stage *)

Lemma readFile_readable env w p :
  readable env w p ->
  readFile env p w = (Ok (default [] (files w !! p)), w).
Proof.
  intros [Hf [b Hb]]. unfold readFile. by rewrite Hf, Hb.
Qed.

Lemma readFile_Ok_readable env w p b w' :
  readFile env p w = (Ok b, w') -> readable env w p /\ w' = w.
Proof.
  unfold readFile, readable. intros H.
  repeat (destruct_match_in H); inversion H; subst; eauto.
Qed.

Lemma readFile_Throw_world env w p e w' :
  readFile env p w = (Throw e, w') -> w' = w.
Proof.
  unfold readFile. intros H.
  repeat (destruct_match_in H); by inversion H.
Qed.

Lemma read_images_readable env w paths acc :
  Forall (readable env w) paths ->
  ImageVariation.read_images env paths acc w
  = (Ok (acc ++ (read_base64 env w <$> paths))%list, w).
Proof.
  intros H. revert acc.
  induction H as [|p paths Hp _ IH]; intros acc; simpl.
  - by rewrite app_nil_r.
  - rewrite (bind_Ok _ _ _ _ _ (readFile_readable env w p Hp)).
    rewrite IH. by rewrite <- app_assoc.
Qed.

(** The loop stops at the first path that cannot be read. *)
Lemma read_images_first_failure env w pre p post acc e :
  Forall (readable env w) pre ->
  readFile env p w = (Throw e, w) ->
  ImageVariation.read_images env (pre ++ p :: post) acc w = (Throw e, w).
Proof.
  intros H Hp. revert acc.
  induction H as [|q pre Hq _ IH]; intros acc; simpl.
  - by rewrite (bind_Throw _ _ _ _ _ Hp).
  - rewrite (bind_Ok _ _ _ _ _ (readFile_readable env w q Hq)). apply IH.
Qed.

Lemma read_images_Ok_readable env w paths acc images w' :
  ImageVariation.read_images env paths acc w = (Ok images, w') ->
  Forall (readable env w) paths /\ w' = w.
Proof.
  revert acc. induction paths as [|p paths IH]; intros acc; simpl.
  - intros [= <- <-]. by split.
  - unfold bind at 1. destruct (readFile env p w) as [[b|e] w1] eqn:E; [|done].
    apply readFile_Ok_readable in E as [Hp ->].
    intros H. apply IH in H as [H ->]. by split; [constructor|].
Qed.

(** With its input files readable, each handler's [try] block is: invoke
    the model on the payload, save what comes back, report the path. *)
Lemma tool_try_readable env c w :
  Forall (readable env w) (input_paths c) ->
  tool_try env c w
  = (do imageBytes <- generateImage env (request_body env w c);
     do imageInfo <-
       saveImage env imageBytes (open_browser_of c) (output_path_of c);
     ret (text_result (success_prefix c +:+ imagePath imageInfo))) w.
Proof.
  intros H. destruct c as [p|p|p|p|p|p|p];
    cbn [tool_try input_paths request_body success_prefix open_browser_of
         output_path_of] in *.
  - reflexivity.
  - apply Forall_cons_1 in H as [H1 _].
    unfold Inpainting.inpainting_try.
    by rewrite (bind_Ok _ _ _ _ _ (readFile_readable _ _ _ H1)).
  - apply Forall_cons_1 in H as [H1 H]. apply Forall_cons_1 in H as [H2 _].
    unfold Outpainting.outpainting_try.
    rewrite (bind_Ok _ _ _ _ _ (readFile_readable _ _ _ H1)).
    by rewrite (bind_Ok _ _ _ _ _ (readFile_readable _ _ _ H2)).
  - unfold ImageVariation.imageVariation_try.
    by rewrite (bind_Ok _ _ _ _ _ (read_images_readable _ _ _ [] H)).
  - apply Forall_cons_1 in H as [H1 _].
    unfold ImageConditioning.imageConditioning_try.
    by rewrite (bind_Ok _ _ _ _ _ (readFile_readable _ _ _ H1)).
  - unfold ColorGuidedGeneration.colorGuidedGeneration_try.
    destruct (ColorGuidedGeneration.reference_image_path p) as [r|];
      [destruct (truthy_json (JStr r)) eqn:E|].
    + apply Forall_cons_1 in H as [H1 _].
      unfold bind at 1. unfold bind at 1.
      by rewrite (readFile_readable _ _ _ H1).
    + reflexivity.
    + reflexivity.
  - apply Forall_cons_1 in H as [H1 _].
    unfold BackgroundRemoval.backgroundRemoval_try.
    by rewrite (bind_Ok _ _ _ _ _ (readFile_readable _ _ _ H1)).
Qed.

(** ** Failures at the tool boundary *)

Lemma call_tool_catch env c :
  call_tool env c
  = try_catch (tool_try env c)
      (fun error =>
         console_error (console_label c) error;;
         ret (text_result (failure_prefix c +:+ message error))).
Proof. by destruct c. Qed.

Ltac invert_binds H :=
  unfold bind, ret in H;
  repeat (destruct_match_in H; try discriminate);
  inversion H; subst; clear H.

Lemma tool_try_Ok_text env c w r w' :
  tool_try env c w = (Ok r, w') -> exists t, r = text_result t.
Proof.
  destruct c as [p|p|p|p|p|p|p]; cbn [tool_try]; intros H.
  - unfold TextToImage.textToImage_try in H. invert_binds H. eauto.
  - unfold Inpainting.inpainting_try in H. invert_binds H. eauto.
  - unfold Outpainting.outpainting_try in H. invert_binds H. eauto.
  - unfold ImageVariation.imageVariation_try in H. invert_binds H. eauto.
  - unfold ImageConditioning.imageConditioning_try in H. invert_binds H. eauto.
  - unfold ColorGuidedGeneration.colorGuidedGeneration_try in H.
    invert_binds H; eauto.
  - unfold BackgroundRemoval.backgroundRemoval_try in H. invert_binds H. eauto.
Qed.



(** ** Unreadable inputs of [image_variation] *)

Lemma readFile_not_readable env w p :
  ~ readable env w p -> exists e, readFile env p w = (Throw e, w).
Proof.
  unfold readable, readFile. intros H.
  destruct (read_fault env p) as [e|]; [eauto|].
  destruct (files w !! p) as [b|] eqn:E; [|eauto].
  destruct H. eauto.
Qed.

Lemma readable_dec env w p : readable env w p \/ ~ readable env w p.
Proof.
  destruct (readFile env p w) as [[b|e] w'] eqn:E.
  - left. by apply readFile_Ok_readable in E as [? _].
  - right. intros H. apply readFile_readable in H. congruence.
Qed.

Lemma first_unreadable env w paths :
  Exists (fun p => ~ readable env w p) paths ->
  exists pre q post e,
    paths = (pre ++ q :: post)%list
    /\ Forall (readable env w) pre
    /\ readFile env q w = (Throw e, w).
Proof.
  induction paths as [|p paths IH]; intros H; [by inversion H|].
  destruct (readable_dec env w p) as [Hp|Hp].
  - inversion H as [? ? Hn|? ? Ht]; subst; [done|].
    destruct (IH Ht) as (pre & q & post & e & -> & Hpre & Hq).
    exists (p :: pre), q, post, e. split; [done|]. split; [by constructor|done].
  - destruct (readFile_not_readable env w p Hp) as [e He].
    by exists [], p, paths, e.
Qed.

(** C3, as the code has it.  When some path of [image_paths] cannot be
    read, [imageVariation] stops at the first such path and returns the
    text ["Error occurred during image variation: "] followed by the
    message of that read error; nothing is sent to the remote model and
    neither the disk nor the cache changes.  The result has the form of
    every other failure of the handler. *)
Theorem imageVariation_unreadable_input env params w :
  Exists (fun p => ~ readable env w p) (ImageVariation.image_paths params) ->
  exists pre q post e w',
    ImageVariation.image_paths params = (pre ++ q :: post)%list
    /\ Forall (readable env w) pre
    /\ readFile env q w = (Throw e, w)
    /\ ImageVariation.imageVariation env params w
       = (Ok (text_result
                ("Error occurred during image variation: " +:+ message e)),
          w')
    /\ sent w' = sent w
    /\ files w' = files w
    /\ imageCache w' = imageCache w.
Proof.
  intros H.
  destruct (first_unreadable env w _ H)
    as (pre & q & post & e & Hl & Hpre & Hq).
  exists pre, q, post, e. eexists.
  split; [done|]. split; [done|]. split; [done|].
  unfold ImageVariation.imageVariation, ImageVariation.imageVariation_try.
  rewrite Hl.
  erewrite try_catch_Throw;
    [|by apply bind_Throw, read_images_first_failure].
  by cbn.
Qed.

Lemma imageVariation_unreadable_input_witness :
  exists w',
    ImageVariation.imageVariation sample_env
      (vary ["/in/a.png"; "/in/b.png"]) sample_world
    = (Ok (text_result
             ("Error occurred during image variation: "
              +:+ "ENOENT: no such file or directory, open '/in/b.png'")),
       w')
    /\ sent w' = [].
Proof.
  destruct (imageVariation_unreadable_input sample_env
              (vary ["/in/a.png"; "/in/b.png"]) sample_world)
    as (pre & q & post & e & w' & Hl & Hpre & Hq & Hr & Hs & _).
  - apply Exists_cons_tl, Exists_cons_hd. intros [_ [b Hb]].
    by vm_compute in Hb.
  - exists w'. split; [|exact Hs]. rewrite Hr.
    assert (message e
            = "ENOENT: no such file or directory, open '/in/b.png'") as ->;
      [|reflexivity].
    vm_compute in Hr. injection Hr as Hm _. exact (eq_sym Hm).
Defined.

(** C3, as stated, would make a read failure tell itself apart from a
    failure of the remote invocation.  Here the same request in the same
    world fails once on reading its second input and once, with both
    inputs read, on the invocation; the two results are equal. *)
Lemma imageVariation_failure_class_counterexample :
  readFile unreadable_env "/in/c.png" sample_world
  = (Throw access_denied, sample_world)
  /\ Forall (readable unreachable_env sample_world) ["/in/a.png"; "/in/c.png"]
  /\ sent (ImageVariation.imageVariation unreadable_env
             (vary ["/in/a.png"; "/in/c.png"]) sample_world).2 = []
  /\ length (sent (ImageVariation.imageVariation unreachable_env
                     (vary ["/in/a.png"; "/in/c.png"]) sample_world).2) = 1
  /\ (ImageVariation.imageVariation unreadable_env
        (vary ["/in/a.png"; "/in/c.png"]) sample_world).1
     = (ImageVariation.imageVariation unreachable_env
          (vary ["/in/a.png"; "/in/c.png"]) sample_world).1.
Proof.
  split; [reflexivity|]. split.
  - repeat constructor; vm_compute; eauto.
  - split; [reflexivity|]. split; reflexivity.
Qed.

(** ** Responses without an image *)

Lemma failure_prefix_includes c :
  includes "No image data" (failure_prefix c +:+ "No image data in response")
  = true.
Proof. by destruct c. Qed.




(** ** One image per invocation *)

(** The selection on a response whose [images] is an array. *)
Lemma select_image_first fields first others :
  own_property fields "images" = Some (JArr (first :: others)) ->
  truthy_json first = true ->
  select_image (JObj fields) = Some first.
Proof.
  intros H Ht. unfold select_image. simpl. rewrite H. simpl. by rewrite Ht.
Qed.

Lemma select_image_fallback j :
  truthy (index0 (property j "images")) = false ->
  select_image j = property j "image".
Proof. intros H. unfold select_image. by rewrite H. Qed.

(** C6. Whatever the request (any [num_images]) and however many images
    the response carries, a handler whose inputs are read, whose
    invocation succeeds and whose save is not refused invokes the model
    once, decodes the one value selected by
    [images?.[0] || image], writes it to the one resolved path, adds the
    one cache entry for the new identifier, and changes no other file. *)
Theorem one_image_extracted_and_saved env c w t j v imageBytes :
  Forall (readable env w) (input_paths c) ->
  send env (length (sent w)) (request_body env w c) = Ok t ->
  JSON_parse env t = Ok j ->
  select_image j = Some v ->
  truthy_json v = true ->
  Buffer_from_base64 env v = Ok imageBytes ->
  let id := randomUUID env (uuids w) in
  let p := resolve_path env (output_path_of c) id in
  write_fault env p = None ->
  (path.dirname p ∈ dirs w \/ path.dirname p ∈ dom (files w)
   \/ mkdir_fault env (path.dirname p) = None) ->
  generateImage env (request_body env w c) w
  = (Ok imageBytes, set_sent (request_body env w c :: sent w) w)
  /\ exists w',
       call_tool env c w = (Ok (text_result (success_prefix c +:+ p)), w')
       /\ sent w' = request_body env w c :: sent w
       /\ files w' = <[p := imageBytes]> (files w)
       /\ imageCache w' = <[id := imageBytes]> (imageCache w).
Proof.
  intros Hr Hs Hp Hv Ht Hb id p Hw Hd.
  pose proof (generateImage_Ok env _ w t j v imageBytes Hs Hp Hv Ht Hb) as Hg.
  split; [done|].
  set (w1 := set_sent (request_body env w c :: sent w) w) in *.
  destruct (saveImage_Ok env imageBytes (open_browser_of c) (output_path_of c)
              w1 Hw Hd) as (w' & Hsave & _).
  exists w'. split.
  - rewrite call_tool_catch. apply try_catch_Ok.
    rewrite tool_try_readable by done.
    rewrite (bind_Ok _ _ _ _ _ Hg). by rewrite (bind_Ok _ _ _ _ _ Hsave).
  - by apply saveImage_Ok_inv in Hsave as (_ & Hf & Hc & _ & Hsent & _).
Qed.

Lemma one_image_extracted_and_saved_witness :
  TextToImage.num_images fox = 4%Q
  /\ exists w',
       call_tool sample_env (text_to_image fox) sample_world
       = (Ok (text_result
                ("Image generated successfully. Saved location: "
                 +:+ "/tmp/out.png")), w')
       /\ length (sent w') = 1
       /\ files w' = <["/tmp/out.png" := ABC]> (files sample_world)
       /\ imageCache w' = {[ "0" := ABC ]}.
Proof.
  split; [reflexivity|].
  destruct (one_image_extracted_and_saved sample_env (text_to_image fox)
              sample_world "two images" two_images (JStr "QUJD") ABC)
    as (_ & w' & Hc & Hs & Hf & Hi).
  - constructor.
  - reflexivity.
  - reflexivity.
  - reflexivity.
  - reflexivity.
  - reflexivity.
  - reflexivity.
  - left. vm_compute. reflexivity.
  - exists w'. split; [exact Hc|]. split; [by rewrite Hs|].
    split; [exact Hf|exact Hi].
Defined.

(** ** Fresh identifiers *)

Create HintDb mono.

Lemma mono_ret {A} (a : A) : uuids_mono (ret a).
Proof. intros w. simpl. lia. Qed.

Lemma mono_throw {A} e : uuids_mono (@throw A e).
Proof. intros w. simpl. lia. Qed.

Lemma mono_bind {A B} (m : M A) (k : A -> M B) :
  uuids_mono m -> (forall a, uuids_mono (k a)) -> uuids_mono (bind m k).
Proof.
  intros Hm Hk w. unfold bind. specialize (Hm w).
  destruct (m w) as [[a|e] w1]; simpl in *; [|done].
  specialize (Hk a w1). lia.
Qed.

Lemma mono_try_catch {A} (m : M A) h :
  uuids_mono m -> (forall e, uuids_mono (h e)) -> uuids_mono (try_catch m h).
Proof.
  intros Hm Hh w. unfold try_catch. specialize (Hm w).
  destruct (m w) as [[a|e] w1]; simpl in *; [done|].
  specialize (Hh e w1). lia.
Qed.

Ltac mono_prim :=
  intros w; unfold_prims; repeat destruct_match; simpl; lia.

Lemma mono_console_error l e : uuids_mono (console_error l e).
Proof. mono_prim. Qed.
Lemma mono_existsSync p : uuids_mono (existsSync p).
Proof. mono_prim. Qed.
Lemma mono_readFile env p : uuids_mono (readFile env p).
Proof. mono_prim. Qed.
Lemma mono_writeFile env p b : uuids_mono (writeFile env p b).
Proof. mono_prim. Qed.
Lemma mono_mkdir_recursive env p : uuids_mono (mkdir_recursive env p).
Proof. mono_prim. Qed.
Lemma mono_crypto_randomUUID env : uuids_mono (crypto_randomUUID env).
Proof. mono_prim. Qed.
Lemma mono_exec_open env c : uuids_mono (exec_open env c).
Proof. mono_prim. Qed.
Lemma mono_imageCache_set k v : uuids_mono (imageCache_set k v).
Proof. mono_prim. Qed.
Lemma mono_client_send env b : uuids_mono (client_send env b).
Proof. mono_prim. Qed.
Lemma mono_parse env t : uuids_mono (parse env t).
Proof. mono_prim. Qed.
Lemma mono_Buffer_from env v : uuids_mono (Buffer_from env v).
Proof. mono_prim. Qed.
Lemma mono_member j k : uuids_mono (member j k).
Proof. destruct j; simpl; first [apply mono_ret | apply mono_throw]. Qed.

#[local] Hint Resolve mono_ret mono_throw mono_console_error mono_existsSync
  mono_readFile mono_writeFile mono_mkdir_recursive mono_crypto_randomUUID
  mono_exec_open mono_imageCache_set mono_client_send mono_parse
  mono_Buffer_from mono_member : mono.

Ltac mono :=
  repeat first
    [ solve [auto with mono]
    | apply mono_bind; [|intros ?]
    | apply mono_try_catch; [|intros ?]
    | destruct_match ].

Lemma mono_saveImage env b o p : uuids_mono (saveImage env b o p).
Proof. unfold saveImage, saveImage_try. mono. Qed.

Lemma mono_generateImage env body : uuids_mono (generateImage env body).
Proof. unfold generateImage, generateImage_try. mono. Qed.

Lemma mono_getImage env i : uuids_mono (getImage env i).
Proof.
  intros w. unfold getImage. destruct (imageCache w !! i); [simpl; lia|].
  revert w. unfold getImage_read. mono.
Qed.

Lemma mono_read_images env paths acc :
  uuids_mono (ImageVariation.read_images env paths acc).
Proof. revert acc. induction paths; intros acc; simpl; mono. Qed.

#[local] Hint Resolve mono_saveImage mono_generateImage mono_getImage
  mono_read_images : mono.

Lemma mono_call_tool env c : uuids_mono (call_tool env c).
Proof.
  destruct c; simpl;
    unfold TextToImage.textToImage, TextToImage.textToImage_try,
      Inpainting.inpainting, Inpainting.inpainting_try,
      Outpainting.outpainting, Outpainting.outpainting_try,
      ImageVariation.imageVariation, ImageVariation.imageVariation_try,
      ImageConditioning.imageConditioning,
      ImageConditioning.imageConditioning_try,
      ColorGuidedGeneration.colorGuidedGeneration,
      ColorGuidedGeneration.colorGuidedGeneration_try,
      BackgroundRemoval.backgroundRemoval,
      BackgroundRemoval.backgroundRemoval_try;
    mono.
Qed.

Lemma unary_uuid_inj i j : unary_uuid i = unary_uuid j -> i = j.
Proof.
  revert j. induction i as [|i IH]; intros [|j]; simpl; try done.
  intros [= H]. f_equal. by apply IH.
Qed.

(** The identifiers returned along a run are the generator's outputs at
    distinct positions, none before the position the run started at. *)
Lemma run_identifiers env calls w :
  uuids w <= uuids (run env calls w).2
  /\ exists ks : list nat,
       imageId <$> (run env calls w).1 = randomUUID env <$> ks
       /\ Forall (fun k => uuids w <= k) ks
       /\ NoDup ks.
Proof.
  revert w. induction calls as [|call calls IH]; intros w.
  { simpl. split; [lia|]. exists []. by repeat split; constructor. }
  destruct call as [b o p|i|c]; simpl.
  - pose proof (mono_saveImage env b o p w) as Hm.
    destruct (saveImage env b o p w) as [[r|e] w1] eqn:E; simpl in Hm.
    + apply saveImage_Ok_inv in E as (-> & _ & _ & Hu & _).
      destruct (IH w1) as (Hle & ks & Hks & Hge & Hnd).
      destruct (run env calls w1) as [rs w2]. simpl in *.
      split; [lia|]. exists (uuids w :: ks).
      split; [rewrite fmap_cons; f_equal; exact Hks|].
      split.
      * constructor; [lia|]. eapply Forall_impl; [exact Hge|]. simpl. lia.
      * constructor; [|done]. intros Hin.
        rewrite Forall_forall in Hge. specialize (Hge _ Hin). lia.
    + destruct (IH w1) as (Hle & ks & Hks & Hge & Hnd).
      split; [lia|]. exists ks. split; [done|]. split; [|done].
      eapply Forall_impl; [exact Hge|]. simpl. lia.
  - pose proof (mono_getImage env i w) as Hm.
    destruct (IH (getImage env i w).2) as (Hle & ks & Hks & Hge & Hnd).
    split; [lia|]. exists ks. split; [done|]. split; [|done].
    eapply Forall_impl; [exact Hge|]. simpl. lia.
  - pose proof (mono_call_tool env c w) as Hm.
    destruct (IH (call_tool env c w).2) as (Hle & ks & Hks & Hge & Hnd).
    split; [lia|]. exists ks. split; [done|]. split; [|done].
    eapply Forall_impl; [exact Hge|]. simpl. lia.
Qed.



(** * Further properties of the storage layer *)

(** What a throwing [saveImage] has and has not done. *)
Lemma saveImage_Throw_inv env imageBytes openBrowser outputPath w e w' :
  saveImage env imageBytes openBrowser outputPath w = (Throw e, w') ->
  let p := resolve_path env outputPath (randomUUID env (uuids w)) in
  files w' = files w
  /\ imageCache w' = imageCache w
  /\ uuids w' = S (uuids w)
  /\ sent w' = sent w
  /\ spawned w' = spawned w
  /\ console w' = ("Error saving image:", e) :: console w
  /\ (mkdir_fault env (path.dirname p) = Some e \/ write_fault env p = Some e).
Proof.
  unfold saveImage, saveImage_try. unfold_prims. simpl.
  intros H.
  repeat (destruct_match_in H; simpl in * );
    try discriminate; inversion H; subst; clear H; simpl; auto 10.
Qed.

(** The viewer and the console after a returning [saveImage]. *)
Lemma saveImage_Ok_effects env imageBytes openBrowser outputPath w r w' :
  saveImage env imageBytes openBrowser outputPath w = (Ok r, w') ->
  spawned w'
  = ((if openBrowser then [open_command env (imagePath r)] else [])
       ++ spawned w)%list
  /\ (openBrowser = false -> console w' = console w).
Proof.
  unfold saveImage, saveImage_try. unfold_prims. simpl.
  intros H.
  repeat (destruct_match_in H; simpl in * );
    try discriminate; inversion H; subst; clear H; simpl;
    (split; [reflexivity|by intros]).
Qed.

Lemma getImage_from_disk env imageId w b :
  imageCache w !! imageId = None ->
  read_fault env (path.join (imagesDir env) (imageId +:+ ".png")) = None ->
  files w !! path.join (imagesDir env) (imageId +:+ ".png") = Some b ->
  getImage env imageId w
  = (Ok b, set_imageCache (<[imageId := b]> (imageCache w)) w).
Proof.
  intros Hc Hr Hf. unfold getImage, getImage_read. rewrite Hc. unfold_prims.
  by rewrite Hr, Hf.
Qed.

(** X1. Read-through: on a cache miss [getImage] returns the bytes of
    [<imagesDir>/<imageId>.png] and puts them in the cache; from then on,
    whatever happens to the disk, a world that still has the cache entry
    answers from it and is left as it is. *)
Theorem getImage_read_through env imageId w b :
  imageCache w !! imageId = None ->
  read_fault env (path.join (imagesDir env) (imageId +:+ ".png")) = None ->
  files w !! path.join (imagesDir env) (imageId +:+ ".png") = Some b ->
  getImage env imageId w
  = (Ok b, set_imageCache (<[imageId := b]> (imageCache w)) w)
  /\ forall w2,
       imageCache w2 = <[imageId := b]> (imageCache w) ->
       getImage env imageId w2 = (Ok b, w2).
Proof.
  intros Hc Hr Hf. split.
  - by apply getImage_from_disk.
  - intros w2 H2. unfold getImage. by rewrite H2, lookup_insert_eq.
Qed.

Lemma getImage_read_through_witness :
  exists w1,
    getImage sample_env "cat" cat_world = (Ok DEF, w1)
    /\ getImage sample_env "cat" (set_files ∅ w1)
       = (Ok DEF, set_files ∅ w1).
Proof.
  destruct (getImage_read_through sample_env "cat" cat_world DEF) as [H1 H2];
    [reflexivity..|].
  eexists. split; [exact H1|]. apply H2. reflexivity.
Defined.

(** X2. [getImage] is pure retrieval: whatever it returns, it writes no
    file, makes no directory, draws no identifier, sends nothing and
    spawns nothing; the cache is either untouched or gains, on a miss
    answered from the disk, the entry for the requested identifier. *)
Theorem getImage_pure_retrieval env imageId w :
  let o := (getImage env imageId w).1 in
  let w' := (getImage env imageId w).2 in
  files w' = files w /\ dirs w' = dirs w /\ uuids w' = uuids w
  /\ sent w' = sent w /\ spawned w' = spawned w
  /\ (imageCache w' = imageCache w
      \/ exists b,
           imageCache w !! imageId = None /\ o = Ok b
           /\ files w !! path.join (imagesDir env) (imageId +:+ ".png")
              = Some b
           /\ imageCache w' = <[imageId := b]> (imageCache w)).
Proof.
  unfold getImage, getImage_read.
  destruct (imageCache w !! imageId) as [b|] eqn:Hc; simpl; [auto 10|].
  unfold_prims.
  destruct (read_fault env _); simpl; [auto 10|].
  destruct (files w !! _) as [b|] eqn:Hf; simpl; [|auto 10].
  repeat split; try done. right. by exists b.
Qed.

(** X3. On a cache miss every failure of the read, whatever its cause, is
    turned into the one error ["Image <imageId> not found"]; the cause is
    only written to the console, and the cache stays as it was. *)
Theorem getImage_masks_read_errors env imageId w e :
  imageCache w !! imageId = None ->
  readFile env (path.join (imagesDir env) (imageId +:+ ".png")) w
  = (Throw e, w) ->
  getImage env imageId w
  = (Throw (new_Error ("Image " +:+ imageId +:+ " not found")),
     set_console
       (("Error retrieving image " +:+ imageId +:+ ":", e) :: console w) w).
Proof.
  intros Hc Hr. unfold getImage, getImage_read. rewrite Hc.
  erewrite try_catch_Throw; [|by apply bind_Throw]. reflexivity.
Qed.

Lemma getImage_masks_read_errors_witness :
  files cat_world !! "/srv/app/images/cat.png" = Some DEF
  /\ exists w', getImage no_reads_env "cat" cat_world
                = (Throw (new_Error "Image cat not found"), w')
                /\ imageCache w' = ∅.
Proof.
  split; [reflexivity|]. eexists. split.
  - apply (getImage_masks_read_errors no_reads_env "cat" cat_world
             access_denied); reflexivity.
  - reflexivity.
Defined.

(** A save whose write is refused throws the write error. *)
Lemma saveImage_write_fault env imageBytes openBrowser outputPath w e :
  let p := resolve_path env outputPath (randomUUID env (uuids w)) in
  let dir := path.dirname p in
  write_fault env p = Some e ->
  (dir ∈ dirs w \/ dir ∈ dom (files w) \/ mkdir_fault env dir = None) ->
  exists w', saveImage env imageBytes openBrowser outputPath w = (Throw e, w').
Proof.
  intros p dir Hw Hd.
  unfold saveImage, saveImage_try. unfold_prims. simpl.
  fold p. fold dir. rewrite Hw.
  destruct (bool_decide (dir ∈ dirs w) || bool_decide (dir ∈ dom (files w)))
    eqn:E; simpl; [by eexists|].
  apply orb_false_iff in E as [E1 E2].
  apply bool_decide_eq_false_1 in E1. apply bool_decide_eq_false_1 in E2.
  destruct Hd as [?|[?|Hm]]; [done..|]. rewrite Hm. simpl. by eexists.
Qed.





(** X7. Two saves to the same explicit path: the file ends up holding the
    second bytes, while each identifier still retrieves its own bytes
    from the cache. *)
Theorem saves_to_same_path
    env bytes1 bytes2 open1 open2 outputPath w r1 w1 r2 w2 :
  outputPath <> "" ->
  randomUUID env (uuids w) <> randomUUID env (S (uuids w)) ->
  saveImage env bytes1 open1 outputPath w = (Ok r1, w1) ->
  saveImage env bytes2 open2 outputPath w1 = (Ok r2, w2) ->
  imagePath r1 = outputPath /\ imagePath r2 = outputPath
  /\ files w2 !! outputPath = Some bytes2
  /\ getImage env (imageId r1) w2 = (Ok bytes1, w2)
  /\ getImage env (imageId r2) w2 = (Ok bytes2, w2).
Proof.
  intros Hne Hid H1 H2.
  apply saveImage_Ok_inv in H1 as (-> & _ & Hc1 & Hu1 & _).
  apply saveImage_Ok_inv in H2 as (-> & Hf2 & Hc2 & _).
  rewrite Hu1 in *. simpl.
  rewrite !resolve_path_provided in * by done.
  repeat split.
  - by rewrite Hf2, lookup_insert_eq.
  - unfold getImage.
    by rewrite Hc2, lookup_insert_ne, Hc1, lookup_insert_eq.
  - unfold getImage. by rewrite Hc2, lookup_insert_eq.
Qed.

Lemma saves_to_same_path_witness :
  exists r1 w1 r2 w2,
    saveImage sample_env ABC false "/tmp/out.png" sample_world = (Ok r1, w1)
    /\ saveImage sample_env DEF false "/tmp/out.png" w1 = (Ok r2, w2)
    /\ files w2 !! "/tmp/out.png" = Some DEF
    /\ getImage sample_env (imageId r1) w2 = (Ok ABC, w2).
Proof.
  destruct (saveImage sample_env ABC false "/tmp/out.png" sample_world)
    as [[r1|e] w1] eqn:E1; [|by vm_compute in E1].
  destruct (saveImage sample_env DEF false "/tmp/out.png" w1)
    as [[r2|e] w2] eqn:E2.
  - destruct (saves_to_same_path sample_env ABC DEF false false "/tmp/out.png"
                sample_world r1 w1 r2 w2) as (_ & _ & Hf & Hg & _);
      [discriminate|discriminate|exact E1|exact E2|].
    by exists r1, w1, r2, w2.
  - exfalso. apply saveImage_Throw_inv in E2 as (_ & _ & _ & _ & _ & _ & H).
    by destruct H.
Defined.

(** * Further properties of the invocation layer and the handlers *)

Lemma generateImage_effects env body w :
  let w' := (generateImage env body w).2 in
  files w' = files w /\ dirs w' = dirs w /\ imageCache w' = imageCache w
  /\ uuids w' = uuids w /\ spawned w' = spawned w
  /\ sent w' = body :: sent w.
Proof.
  unfold generateImage, generateImage_try, member. unfold_prims.
  repeat (destruct_match; simpl); auto 10.
Qed.

Lemma Forall_or_Exists_readable env w paths :
  Forall (readable env w) paths
  \/ Exists (fun p => ~ readable env w p) paths.
Proof.
  induction paths as [|p paths [IH|IH]]; [by left| |].
  - destruct (readable_dec env w p); [left|right]; by constructor.
  - right. by constructor 2.
Qed.

(** Every handler stops at the first input it cannot read. *)
Lemma tool_try_first_failure env c w pre q post e :
  input_paths c = (pre ++ q :: post)%list ->
  Forall (readable env w) pre ->
  readFile env q w = (Throw e, w) ->
  tool_try env c w = (Throw e, w).
Proof.
  intros Hl Hpre Hq.
  destruct c as [p|p|p|p|p|p|p]; cbn [tool_try input_paths] in *.
  - by destruct pre.
  - destruct pre as [|x [|? ?]]; simplify_eq/=.
    unfold Inpainting.inpainting_try. by apply bind_Throw.
  - destruct pre as [|x [|y [|? ?]]]; simplify_eq/=;
      unfold Outpainting.outpainting_try.
    + by apply bind_Throw.
    + apply Forall_cons_1 in Hpre as [Hx _].
      rewrite (bind_Ok _ _ _ _ _ (readFile_readable _ _ _ Hx)).
      by apply bind_Throw.
  - unfold ImageVariation.imageVariation_try. rewrite Hl.
    by apply bind_Throw, read_images_first_failure.
  - destruct pre as [|x [|? ?]]; simplify_eq/=.
    unfold ImageConditioning.imageConditioning_try. by apply bind_Throw.
  - unfold ColorGuidedGeneration.colorGuidedGeneration_try.
    destruct (ColorGuidedGeneration.reference_image_path p) as [r|];
      [destruct (truthy_json (JStr r)) eqn:E|].
    + destruct pre as [|x [|? ?]]; simplify_eq/=.
      apply bind_Throw. by apply bind_Throw.
    + by destruct pre.
    + by destruct pre.
  - destruct pre as [|x [|? ?]]; simplify_eq/=.
    unfold BackgroundRemoval.backgroundRemoval_try. by apply bind_Throw.
Qed.

(** All a tool call can do to the world, by the stage it reaches. *)
Lemma call_tool_effects env c w :
  let w' := (call_tool env c w).2 in
  let id := randomUUID env (uuids w) in
  let p := resolve_path env (output_path_of c) id in
  (Exists (fun q => ~ readable env w q) (input_paths c)
   /\ sent w' = sent w /\ files w' = files w /\ dirs w' = dirs w
   /\ imageCache w' = imageCache w /\ uuids w' = uuids w
   /\ spawned w' = spawned w)
  \/ (Forall (readable env w) (input_paths c)
      /\ sent w' = request_body env w c :: sent w
      /\ ((files w' = files w /\ dirs w' = dirs w
           /\ imageCache w' = imageCache w /\ uuids w' = uuids w
           /\ spawned w' = spawned w)
          \/ (files w' = files w /\ imageCache w' = imageCache w
              /\ uuids w' = S (uuids w) /\ spawned w' = spawned w)
          \/ (exists b,
                files w' = <[p := b]> (files w)
                /\ imageCache w' = <[id := b]> (imageCache w)
                /\ uuids w' = S (uuids w)
                /\ spawned w'
                   = ((if open_browser_of c then [open_command env p] else [])
                        ++ spawned w)%list))).
Proof.
  intros w' id p. subst w'.
  destruct (Forall_or_Exists_readable env w (input_paths c)) as [Hr|Hn].
  - right. split; [done|].
    pose proof (tool_try_readable env c w Hr) as Ht.
    pose proof (generateImage_effects env (request_body env w c) w) as Hg.
    destruct (generateImage env (request_body env w c) w)
      as [[imageBytes|e] w1] eqn:Eg; simpl in Hg;
      destruct Hg as (Hf & Hd & Hc & Hu & Hsp & Hs).
    + rewrite (bind_Ok _ _ _ _ _ Eg) in Ht.
      destruct (saveImage env imageBytes (open_browser_of c)
                  (output_path_of c) w1) as [[r|e] w2] eqn:Es.
      * rewrite (bind_Ok _ _ _ _ _ Es) in Ht.
        rewrite call_tool_catch, (try_catch_Ok _ _ _ _ _ Ht). simpl.
        pose proof (saveImage_Ok_effects _ _ _ _ _ _ _ Es) as [Hsp2 _].
        apply saveImage_Ok_inv in Es as (-> & Hf2 & Hc2 & Hu2 & Hs2 & _).
        simpl in Hsp2. rewrite Hu in *.
        split; [congruence|]. right. right. exists imageBytes.
        fold id in Hf2, Hc2, Hsp2. fold p in Hf2, Hsp2.
        repeat split; congruence.
      * rewrite (bind_Throw _ _ _ _ _ Es) in Ht.
        rewrite call_tool_catch, (try_catch_Throw _ _ _ _ _ Ht). cbn.
        apply saveImage_Throw_inv in Es
          as (Hf2 & Hc2 & Hu2 & Hs2 & Hsp2 & _).
        split; [congruence|]. right. left. repeat split; congruence.
    + rewrite (bind_Throw _ _ _ _ _ Eg) in Ht.
      rewrite call_tool_catch, (try_catch_Throw _ _ _ _ _ Ht). cbn.
      split; [done|]. left. done.
  - left. split; [done|].
    destruct (first_unreadable env w _ Hn)
      as (pre & q & post & e & Hl & Hpre & Hq).
    rewrite call_tool_catch.
    erewrite try_catch_Throw; [|by eapply tool_try_first_failure].
    by cbn.
Qed.

(** X6. A tool call whose [open_browser] is false never starts a
    process, whether it succeeds or fails. *)
Theorem tools_without_viewer_spawn_nothing env c w :
  open_browser_of c = false ->
  spawned (call_tool env c w).2 = spawned w.
Proof.
  intros Ho.
  destruct (call_tool_effects env c w)
    as [(_ & _ & _ & _ & _ & _ & H)
       |(_ & _ & [(_ & _ & _ & _ & H)|[(_ & _ & _ & H)|(b & _ & _ & _ & H)]])];
    try done.
  by rewrite H, Ho.
Qed.

Lemma tools_without_viewer_spawn_nothing_witness :
  (call_tool sample_env (image_variation (vary ["/in/a.png"])) sample_world).1
  = Ok (text_result
          ("Image variation generated successfully. Saved location: "
           +:+ "/tmp/out.png"))
  /\ spawned (call_tool sample_env (image_variation (vary ["/in/a.png"]))
                sample_world).2 = [].
Proof.
  split; [reflexivity|].
  apply (tools_without_viewer_spawn_nothing sample_env
           (image_variation (vary ["/in/a.png"])) sample_world).
  reflexivity.
Defined.

(** X9. For every tool: when an input file cannot be read, the handler
    stops at the first such file, answers with its failure prefix and the
    message of that read error, sends nothing to the remote model and
    leaves the disk and the cache as they are. *)
Theorem tools_unreadable_input env c w :
  Exists (fun q => ~ readable env w q) (input_paths c) ->
  exists pre q post e w',
    input_paths c = (pre ++ q :: post)%list
    /\ Forall (readable env w) pre
    /\ readFile env q w = (Throw e, w)
    /\ call_tool env c w
       = (Ok (text_result (failure_prefix c +:+ message e)), w')
    /\ sent w' = sent w
    /\ files w' = files w
    /\ imageCache w' = imageCache w.
Proof.
  intros H.
  destruct (first_unreadable env w _ H)
    as (pre & q & post & e & Hl & Hpre & Hq).
  exists pre, q, post, e. eexists.
  split; [done|]. split; [done|]. split; [done|].
  rewrite call_tool_catch.
  erewrite try_catch_Throw; [|by eapply tool_try_first_failure].
  by cbn.
Qed.

Lemma tools_unreadable_input_witness :
  exists e w',
    readFile sample_env "/in/mask.png" sample_world = (Throw e, sample_world)
    /\ call_tool sample_env (outpainting (extend "/in/a.png" "/in/mask.png"))
         sample_world
       = (Ok (text_result
                ("Error occurred during outpainting: " +:+ message e)), w')
    /\ sent w' = [].
Proof.
  destruct (tools_unreadable_input sample_env
              (outpainting (extend "/in/a.png" "/in/mask.png")) sample_world)
    as (pre & q & post & e & w' & Hl & Hpre & Hq & Hc & Hs & _).
  - apply Exists_cons_tl, Exists_cons_hd. intros [_ [b Hb]].
    by vm_compute in Hb.
  - exists e, w'. split; [|split; [exact Hc|exact Hs]].
    cbn [input_paths extend Outpainting.image_path
         Outpainting.mask_image_path] in Hl.
    destruct pre as [|x [|y [|? ?]]]; simplify_eq/=;
      first [exact Hq | by vm_compute in Hq].
Defined.

Lemma call_tool_sent_readable env c w :
  Forall (readable env w) (input_paths c) ->
  sent (call_tool env c w).2 = request_body env w c :: sent w.
Proof.
  intros Hr.
  destruct (call_tool_effects env c w) as [(Hn & _)|(_ & Hs & _)]; [|done].
  apply Exists_exists in Hn as (q & Hq & Hn).
  rewrite Forall_forall in Hr. destruct Hn. by apply Hr.
Qed.

(** X10. For every tool: once the input files are read, exactly one
    request goes to the remote model, the payload built from the
    parameters and the files, whatever the invocation and the save then
    do; and no call ever sends more than one. *)
Theorem tools_send_one_request env c w :
  (Forall (readable env w) (input_paths c) ->
   sent (call_tool env c w).2 = request_body env w c :: sent w)
  /\ length (sent (call_tool env c w).2) <= S (length (sent w)).
Proof.
  split; [apply call_tool_sent_readable|].
  destruct (call_tool_effects env c w) as [(_ & Hs & _)|(_ & Hs & _)];
    rewrite Hs; simpl; lia.
Qed.

Lemma tools_send_one_request_witness :
  sent (call_tool denied_env (inpainting (repaint "/in/a.png"))
          sample_world).2
  = [Inpainting.inpainting_body (repaint "/in/a.png") "QUJD"].
Proof.
  rewrite (proj1 (tools_send_one_request denied_env
                    (inpainting (repaint "/in/a.png")) sample_world)).
  - reflexivity.
  - repeat constructor. vm_compute. eauto.
Defined.

(** X11. [color_guided_generation] without a reference image, or with the
    empty string for its path, reads no file: whatever the state of the
    disk, it sends the payload with [text], [negativeText] and [colors]
    only. *)
Theorem colorGuidedGeneration_without_reference env params w :
  ColorGuidedGeneration.reference_image_path params = None
  \/ ColorGuidedGeneration.reference_image_path params = Some "" ->
  sent (call_tool env (color_guided_generation params) w).2
  = ColorGuidedGeneration.colorGuidedGeneration_body params
      (ColorGuidedGeneration.colorGuidedGeneration_base_params params)
    :: sent w.
Proof.
  intros H.
  assert (Hi : input_paths (color_guided_generation params) = []).
  { cbn [input_paths]. by destruct H as [-> | ->]. }
  rewrite call_tool_sent_readable.
  - cbn [request_body]. by rewrite Hi.
  - rewrite Hi. constructor.
Qed.

Lemma colorGuidedGeneration_without_reference_witness :
  sent (call_tool no_reads_env (color_guided_generation (palette (Some "")))
          sample_world).2
  = [ColorGuidedGeneration.colorGuidedGeneration_body (palette (Some ""))
       [("text", JStr "a sunset"); ("negativeText", JStr "");
        ("colors", JArr [JStr "#ff8800"; JStr "#220044"])]].
Proof.
  apply (colorGuidedGeneration_without_reference no_reads_env
           (palette (Some "")) sample_world).
  right. reflexivity.
Defined.




(** X14. [generateImage] adds nothing to a failure of the remote call or
    of [JSON.parse]: it logs the error and rethrows that very error, the
    request having been recorded as sent. *)
Theorem generateImage_rethrows env body w e :
  send env (length (sent w)) body = Throw e
  \/ (exists t, send env (length (sent w)) body = Ok t
                /\ JSON_parse env t = Throw e) ->
  generateImage env body w
  = (Throw e,
     set_console (("Error generating image:", e) :: console w)
       (set_sent (body :: sent w) w)).
Proof.
  unfold generateImage, generateImage_try. unfold_prims.
  intros [H|(t & H & Hp)]; rewrite H; [done|]. by rewrite Hp.
Qed.

Lemma generateImage_rethrows_witness :
  (generateImage denied_env (TextToImage.textToImage_body fox) sample_world).1
  = Throw (mkError "AccessDeniedException" "not authorized").
Proof.
  rewrite (generateImage_rethrows denied_env (TextToImage.textToImage_body fox)
             sample_world (mkError "AccessDeniedException" "not authorized")).
  - reflexivity.
  - left. reflexivity.
Defined.

(** X15. An empty [image_paths] list is not rejected: [image_variation]
    reads nothing and sends the request with an empty [images] array. *)
Theorem imageVariation_empty_list env params w :
  ImageVariation.image_paths params = [] ->
  sent (call_tool env (image_variation params) w).2
  = ImageVariation.imageVariation_body params [] :: sent w.
Proof.
  intros H. rewrite call_tool_sent_readable.
  - cbn [request_body]. by rewrite H.
  - cbn [input_paths]. rewrite H. constructor.
Qed.

Lemma imageVariation_empty_list_witness :
  length (sent (call_tool no_reads_env (image_variation (vary []))
                  sample_world).2) = 1.
Proof.
  rewrite (imageVariation_empty_list no_reads_env (vary []) sample_world).
  - reflexivity.
  - reflexivity.
Defined.

(** X18. Whatever it returns, [generateImage] records exactly the one
    request and touches neither the disk, the cache, the identifier
    generator nor the viewer; the console gains a line exactly when it
    throws, naming the error thrown. *)
Theorem generateImage_never_stores env body w :
  let o := (generateImage env body w).1 in
  let w' := (generateImage env body w).2 in
  sent w' = body :: sent w
  /\ files w' = files w /\ dirs w' = dirs w /\ imageCache w' = imageCache w
  /\ uuids w' = uuids w /\ spawned w' = spawned w
  /\ console w' = match o with
                  | Ok _ => console w
                  | Throw e => ("Error generating image:", e) :: console w
                  end.
Proof.
  unfold generateImage, generateImage_try, member. unfold_prims.
  repeat (destruct_match; simpl); auto 10.
Qed.

(** * The cache over a whole run *)

Lemma getImage_effects env imageId w :
  uuids (getImage env imageId w).2 = uuids w
  /\ (imageCache (getImage env imageId w).2 = imageCache w
      \/ exists b,
           imageCache w !! imageId = None
           /\ imageCache (getImage env imageId w).2
              = <[imageId := b]> (imageCache w)).
Proof.
  unfold getImage, getImage_read.
  destruct (imageCache w !! imageId) as [b|] eqn:Hc; simpl; [auto|].
  unfold_prims.
  destruct (read_fault env _); simpl; [auto|].
  destruct (files w !! _) as [b|] eqn:Hf; simpl; [|auto].
  split; [done|]. right. by exists b.
Qed.

Lemma saveImage_holds_entry env id b imageBytes openBrowser outputPath w :
  holds_entry env id b w ->
  holds_entry env id b (saveImage env imageBytes openBrowser outputPath w).2.
Proof.
  intros H. pose proof H as [Hc Hfresh].
  destruct (saveImage env imageBytes openBrowser outputPath w)
    as [[r|e] w'] eqn:E; simpl.
  - apply saveImage_Ok_inv in E as (_ & _ & Hc' & Hu & _).
    split; [|intros j Hj; apply Hfresh; lia].
    rewrite Hc', lookup_insert_ne; [done|]. by apply Hfresh.
  - apply saveImage_Throw_inv in E as (_ & Hc' & Hu & _).
    split; [by rewrite Hc'|intros j Hj; apply Hfresh; lia].
Qed.

Lemma getImage_holds_entry env id b imageId w :
  holds_entry env id b w ->
  holds_entry env id b (getImage env imageId w).2.
Proof.
  intros H. pose proof H as [Hc Hfresh].
  destruct (getImage_effects env imageId w) as [Hu [Hc'|(b' & Hm & Hc')]].
  - split; [by rewrite Hc'|by rewrite Hu].
  - split; [|by rewrite Hu]. rewrite Hc'.
    destruct (decide (imageId = id)) as [->|Hne]; [congruence|].
    by rewrite lookup_insert_ne.
Qed.

Lemma call_tool_holds_entry env id b c w :
  holds_entry env id b w ->
  holds_entry env id b (call_tool env c w).2.
Proof.
  intros H. pose proof H as [Hc Hfresh].
  destruct (call_tool_effects env c w)
    as [(_ & _ & _ & _ & Hc' & Hu & _)
       |(_ & _ & [(_ & _ & Hc' & Hu & _)
                 |[(_ & Hc' & Hu & _)|(b' & _ & Hc' & Hu & _)]])].
  - split; [by rewrite Hc'|by rewrite Hu].
  - split; [by rewrite Hc'|by rewrite Hu].
  - split; [by rewrite Hc'|intros j Hj; apply Hfresh; lia].
  - split; [|intros j Hj; apply Hfresh; lia].
    rewrite Hc', lookup_insert_ne; [done|]. by apply Hfresh.
Qed.

(** X8. A cache entry whose identifier the generator will not produce
    again stays as it is through any sequence of saves, lookups and tool
    calls: after the run [getImage] still answers with the same bytes
    from the cache.  Nothing in the program removes or replaces a cache
    entry. *)
Theorem cache_entry_persists env id b calls w :
  holds_entry env id b w ->
  holds_entry env id b (run env calls w).2
  /\ getImage env id (run env calls w).2 = (Ok b, (run env calls w).2).
Proof.
  intros H.
  assert (Hrun : holds_entry env id b (run env calls w).2).
  { revert w H. induction calls as [|call calls IH]; intros w H; [done|].
    destruct call as [bytes o p|i|c]; simpl.
    - pose proof (saveImage_holds_entry env id b bytes o p w H) as H1.
      destruct (saveImage env bytes o p w) as [[r|e] w1]; simpl in H1.
      + specialize (IH w1 H1). by destruct (run env calls w1).
      + by apply IH.
    - by apply IH, getImage_holds_entry.
    - by apply IH, call_tool_holds_entry. }
  split; [done|]. destruct Hrun as [Hc _]. unfold getImage. by rewrite Hc.
Qed.

Lemma unary_uuid_later k : 1 <= k -> unary_uuid k <> "0".
Proof.
  intros Hk H. apply (unary_uuid_inj k 0) in H. lia.
Qed.

Lemma cache_entry_persists_witness :
  exists w1,
    (saveImage sample_env ABC false "/tmp/out.png" sample_world).2 = w1
    /\ getImage sample_env "0"
         (run sample_env
            [CallSave DEF true "/tmp/out.png"; CallTool (text_to_image fox);
             CallGet "cat"; CallSave DEF false ""] w1).2
       = (Ok ABC,
          (run sample_env
             [CallSave DEF true "/tmp/out.png"; CallTool (text_to_image fox);
              CallGet "cat"; CallSave DEF false ""] w1).2).
Proof.
  eexists. split; [reflexivity|].
  apply (cache_entry_persists sample_env "0" ABC).
  split; [reflexivity|]. intros k Hk. apply unary_uuid_later. exact Hk.
Defined.

(** X17. Loading [image.ts] is idempotent: once the module has loaded,
    running its start-up statements again succeeds and changes nothing. *)
Theorem image_module_init_idempotent env w w1 :
  image_module_init env w = (Ok tt, w1) ->
  image_module_init env w1 = (Ok tt, w1).
Proof.
  unfold image_module_init. unfold_prims. simpl.
  destruct (bool_decide (imagesDir env ∈ dirs w)
            || bool_decide (imagesDir env ∈ dom (files w))) eqn:E; simpl.
  - intros [= <-]. by rewrite E.
  - destruct (mkdir_fault env (imagesDir env)); [done|].
    intros [= <-]. simpl.
    rewrite (bool_decide_eq_true_2 (imagesDir env ∈ _ ∪ _)); [done|].
    apply elem_of_union_r, ancestors_self.
Qed.

Lemma image_module_init_idempotent_witness :
  exists w1,
    image_module_init sample_env (set_dirs {[ "/" ]} sample_world) = (Ok tt, w1)
    /\ "/srv/app/images" ∈ dirs w1
    /\ image_module_init sample_env w1 = (Ok tt, w1).
Proof.
  eexists. split; [reflexivity|]. split.
  - apply (bool_decide_eq_true_1 _). vm_compute. reflexivity.
  - apply (image_module_init_idempotent sample_env
             (set_dirs {[ "/" ]} sample_world)).
    reflexivity.
Defined.

(** * [getAppConfig] *)

Lemma Boolean_is_set (process_env : gmap string string) key :
  Config.Boolean (process_env !! key) = true <-> Config.is_set process_env key.
Proof.
  unfold Config.Boolean, Config.is_set. simpl.
  destruct (process_env !! key) as [s|]; split.
  - intros H. exists s. split; [done|]. intros ->. done.
  - intros (s' & [= <-] & Hne). by rewrite bool_decide_eq_false_2.
  - done.
  - by intros (s' & ? & _).
Qed.

Lemma or_else_set (process_env : gmap string string) key fallback s :
  process_env !! key = Some s -> s <> "" ->
  Config.or_else (process_env !! key) fallback = s.
Proof.
  intros -> Hne. simpl. by rewrite bool_decide_eq_false_2.
Qed.

Lemma or_else_unset (process_env : gmap string string) key fallback :
  ~ Config.is_set process_env key ->
  Config.or_else (process_env !! key) fallback = fallback.
Proof.
  intros H. unfold Config.or_else.
  destruct (process_env !! key) as [s|] eqn:E; [|done].
  simpl. case_bool_decide; [done|]. destruct H. by exists s.
Qed.

(** X16. [getAppConfig] returns exactly when [AWS_PROFILE] is set to a
    non-empty string or both [AWS_ACCESS_KEY_ID] and
    [AWS_SECRET_ACCESS_KEY] are; it then logs nothing, and an unset or
    empty [BEDROCK_MODEL_ID], [AWS_REGION] or [PORT] falls back to
    ["amazon.nova-canvas-v1:0"], ["us-east-1"] and the parse of ["9527"].
    Otherwise it prints the notice about loading from [.env], loads
    nothing and throws. *)
Theorem getAppConfig_credentials number parseInt process_env :
  let credentials :=
    Config.is_set process_env "AWS_PROFILE"
    \/ (Config.is_set process_env "AWS_ACCESS_KEY_ID"
        /\ Config.is_set process_env "AWS_SECRET_ACCESS_KEY") in
  (credentials ->
   exists config,
     Config.getAppConfig number parseInt process_env = ([], Ok config)
     /\ (forall s, process_env !! "BEDROCK_MODEL_ID" = Some s -> s <> "" ->
         Config.modelId config = s)
     /\ (~ Config.is_set process_env "BEDROCK_MODEL_ID" ->
         Config.modelId config = "amazon.nova-canvas-v1:0")
     /\ (forall s, process_env !! "AWS_REGION" = Some s -> s <> "" ->
         Config.region config = s)
     /\ (~ Config.is_set process_env "AWS_REGION" ->
         Config.region config = "us-east-1")
     /\ (forall s, process_env !! "PORT" = Some s -> s <> "" ->
         Config.port config = parseInt s 10%Z)
     /\ (~ Config.is_set process_env "PORT" ->
         Config.port config = parseInt "9527" 10%Z)
     /\ Config.profile config = process_env !! "AWS_PROFILE"
     /\ Config.accessKey config = process_env !! "AWS_ACCESS_KEY_ID"
     /\ Config.secretKey config = process_env !! "AWS_SECRET_ACCESS_KEY")
  /\ (~ credentials ->
      Config.getAppConfig number parseInt process_env
      = ([Config.credentials_notice],
         Throw (new_Error Config.credentials_error))).
Proof.
  intros credentials. unfold credentials.
  rewrite <- !Boolean_is_set.
  unfold Config.getAppConfig. cbn [Config.profile Config.accessKey
    Config.secretKey].
  destruct (Config.Boolean (process_env !! "AWS_PROFILE"));
    destruct (Config.Boolean (process_env !! "AWS_ACCESS_KEY_ID"));
    destruct (Config.Boolean (process_env !! "AWS_SECRET_ACCESS_KEY"));
    simpl; split; intros H;
    try (destruct H as [?|[? ?]]; discriminate);
    try (destruct H; auto; fail);
    try reflexivity;
    (eexists; split; [reflexivity|]; cbn [Config.modelId Config.region
       Config.port Config.profile Config.accessKey Config.secretKey];
     repeat split;
     first [ intros; by apply or_else_set
           | intros; by apply or_else_unset
           | intros s Hs Hne; by rewrite (or_else_set _ _ _ _ Hs Hne)
           | intros Hn; by rewrite (or_else_unset _ _ _ Hn) ]).
Qed.

Lemma getAppConfig_credentials_witness :
  (exists config,
     Config.getAppConfig (option Z) sample_parseInt profile_only
     = ([], Ok config)
     /\ Config.modelId config = "amazon.nova-canvas-v1:0"
     /\ Config.region config = "us-east-1"
     /\ Config.port config = Some 9527%Z)
  /\ Config.getAppConfig (option Z) sample_parseInt half_a_key_pair
     = ([Config.credentials_notice],
        Throw (new_Error Config.credentials_error)).
Proof.
  split.
  - destruct (proj1 (getAppConfig_credentials (option Z) sample_parseInt
                       profile_only))
      as (config & Hc & _ & Hm & _ & Hr & _ & Hp & _).
    + left. exists "dev". split; [reflexivity|discriminate].
    + exists config. split; [exact Hc|]. split; [|split].
      * apply Hm. intros (s & Hs & _). by vm_compute in Hs.
      * apply Hr. intros (s & Hs & Hne). vm_compute in Hs.
        injection Hs as <-. by apply Hne.
      * rewrite Hp; [reflexivity|]. intros (s & Hs & _). by vm_compute in Hs.
  - apply (proj2 (getAppConfig_credentials (option Z) sample_parseInt
                    half_a_key_pair)).
    intros [(s & Hs & Hne)|[_ (s & Hs & _)]].
    + vm_compute in Hs. injection Hs as <-. by apply Hne.
    + by vm_compute in Hs.
Defined.

(** * The tools never read the cache *)

Lemma blind_ret {A} (a : A) : cache_blind (ret a).
Proof. by intros w w2 H. Qed.

Lemma blind_throw {A} e : cache_blind (@throw A e).
Proof. by intros w w2 H. Qed.

Lemma blind_bind {A B} (m : M A) (k : A -> M B) :
  cache_blind m -> (forall a, cache_blind (k a)) -> cache_blind (bind m k).
Proof.
  intros Hm Hk w w2 H. unfold bind. destruct (Hm w w2 H) as [Ho Hw].
  destruct (m w) as [[a|e] w1], (m w2) as [[a2|e2] w3];
    simpl in *; simplify_eq; [by apply Hk|done].
Qed.

Lemma blind_try_catch {A} (m : M A) h :
  cache_blind m -> (forall e, cache_blind (h e)) ->
  cache_blind (try_catch m h).
Proof.
  intros Hm Hh w w2 H. unfold try_catch. destruct (Hm w w2 H) as [Ho Hw].
  destruct (m w) as [[a|e] w1], (m w2) as [[a2|e2] w3];
    simpl in *; simplify_eq; [done|by apply Hh].
Qed.

Ltac blind_prim :=
  intros w w2 (Hf & Hd & Hu & Hs & Hsp & Hc);
  unfold_prims; unfold same_but_cache; simpl;
  rewrite ?Hf, ?Hd, ?Hu, ?Hs, ?Hsp, ?Hc;
  repeat (destruct_match; simpl);
  rewrite ?Hf, ?Hd, ?Hu, ?Hs, ?Hsp, ?Hc; auto 10.

Lemma blind_console_error l e : cache_blind (console_error l e).
Proof. blind_prim. Qed.
Lemma blind_existsSync p : cache_blind (existsSync p).
Proof. blind_prim. Qed.
Lemma blind_readFile env p : cache_blind (readFile env p).
Proof. blind_prim. Qed.
Lemma blind_writeFile env p b : cache_blind (writeFile env p b).
Proof. blind_prim. Qed.
Lemma blind_mkdir_recursive env p : cache_blind (mkdir_recursive env p).
Proof. blind_prim. Qed.
Lemma blind_crypto_randomUUID env : cache_blind (crypto_randomUUID env).
Proof. blind_prim. Qed.
Lemma blind_exec_open env c : cache_blind (exec_open env c).
Proof. blind_prim. Qed.
Lemma blind_imageCache_set k v : cache_blind (imageCache_set k v).
Proof. blind_prim. Qed.
Lemma blind_client_send env b : cache_blind (client_send env b).
Proof. blind_prim. Qed.
Lemma blind_parse env t : cache_blind (parse env t).
Proof. blind_prim. Qed.
Lemma blind_Buffer_from env v : cache_blind (Buffer_from env v).
Proof. blind_prim. Qed.
Lemma blind_member j k : cache_blind (member j k).
Proof. destruct j; simpl; first [apply blind_ret | apply blind_throw]. Qed.

Create HintDb blind.

#[local] Hint Resolve blind_ret blind_throw blind_console_error
  blind_existsSync blind_readFile blind_writeFile blind_mkdir_recursive
  blind_crypto_randomUUID blind_exec_open blind_imageCache_set
  blind_client_send blind_parse blind_Buffer_from blind_member : blind.

Ltac blind :=
  repeat first
    [ solve [auto with blind]
    | apply blind_bind; [|intros ?]
    | apply blind_try_catch; [|intros ?]
    | destruct_match ].

Lemma blind_saveImage env b o p : cache_blind (saveImage env b o p).
Proof. unfold saveImage, saveImage_try. blind. Qed.

Lemma blind_generateImage env body : cache_blind (generateImage env body).
Proof. unfold generateImage, generateImage_try. blind. Qed.

Lemma blind_read_images env paths acc :
  cache_blind (ImageVariation.read_images env paths acc).
Proof. revert acc. induction paths; intros acc; simpl; blind. Qed.

#[local] Hint Resolve blind_saveImage blind_generateImage blind_read_images
  : blind.

(** X19. No tool reads the image cache: from two worlds that differ only
    in the content of the cache, a tool call returns the same result and
    does the same to the disk, the identifier generator, the remote model,
    the viewer and the console.  The cache only ever answers [getImage]. *)
Theorem tools_never_read_cache env c w w2 :
  same_but_cache w w2 ->
  (call_tool env c w).1 = (call_tool env c w2).1
  /\ same_but_cache (call_tool env c w).2 (call_tool env c w2).2.
Proof.
  revert w w2. change (cache_blind (call_tool env c)).
  destruct c; simpl;
    unfold TextToImage.textToImage, TextToImage.textToImage_try,
      Inpainting.inpainting, Inpainting.inpainting_try,
      Outpainting.outpainting, Outpainting.outpainting_try,
      ImageVariation.imageVariation, ImageVariation.imageVariation_try,
      ImageConditioning.imageConditioning,
      ImageConditioning.imageConditioning_try,
      ColorGuidedGeneration.colorGuidedGeneration,
      ColorGuidedGeneration.colorGuidedGeneration_try,
      BackgroundRemoval.backgroundRemoval,
      BackgroundRemoval.backgroundRemoval_try;
    blind.
Qed.

Lemma tools_never_read_cache_witness :
  (call_tool sample_env (inpainting (repaint "/in/a.png"))
     (set_imageCache {[ "0" := DEF ]} sample_world)).1
  = (call_tool sample_env (inpainting (repaint "/in/a.png")) sample_world).1.
Proof.
  apply (tools_never_read_cache sample_env (inpainting (repaint "/in/a.png"))
           (set_imageCache {[ "0" := DEF ]} sample_world) sample_world).
  repeat split.
Defined.

(** * Round trip through the disk *)

(** X20. A save without an output path survives the loss of the cache:
    in any later state of the same disk with no cache entry for the
    identifier, such as the restarted process, [getImage] reads the saved
    bytes back from [<imagesDir>/<id>.png] (if the read is not refused)
    and caches them again. *)
Theorem save_default_survives_restart env imageBytes openBrowser w r w' w'' :
  saveImage env imageBytes openBrowser "" w = (Ok r, w') ->
  read_fault env (imagePath r) = None ->
  files w'' = files w' ->
  imageCache w'' !! imageId r = None ->
  imagePath r = path.join (imagesDir env) (imageId r +:+ ".png")
  /\ getImage env (imageId r) w''
     = (Ok imageBytes,
        set_imageCache (<[imageId r := imageBytes]> (imageCache w'')) w'').
Proof.
  intros Hs Hr Hf Hc.
  apply saveImage_Ok_inv in Hs as (-> & Hf' & _). simpl in *.
  split; [done|].
  apply getImage_from_disk; [done|done|].
  by rewrite Hf, Hf', resolve_path_empty, lookup_insert_eq.
Qed.

Lemma save_default_survives_restart_witness :
  exists w',
    saveImage sample_env ABC false "" sample_world
    = (Ok {| imageId := "0"; imagePath := "/srv/app/images/0.png";
             url := Some "file:///srv/app/images/0.png" |}, w')
    /\ (getImage sample_env "0" (restart w')).1 = Ok ABC.
Proof.
  destruct (saveImage sample_env ABC false "" sample_world)
    as [[r|e] w'] eqn:E; [|by vm_compute in E].
  destruct (save_default_survives_restart sample_env ABC false sample_world
              r w' (restart w') E) as [_ Hg].
  - reflexivity.
  - reflexivity.
  - reflexivity.
  - apply saveImage_Ok_inv in E as (-> & _). exists w'.
    split; [reflexivity|]. simpl in Hg. by rewrite Hg.
Defined.
